(** * The Outline effect of libopenshot (src/effects/Outline.cpp)

    A shallow embedding of [Outline::GetFrame] and of the JSON load/store
    methods of the effect, with the properties of its pixel pipeline and of
    its serialization interface.

    The effect is written against three collaborators that are not part of
    [Outline.cpp]:
    - OpenCV ([cv::Mat], [cv::split], [cv::GaussianBlur], [cv::threshold],
      [cv::Canny], [cv::bitwise_or], [cv::Mat::copyTo]) and Qt ([QImage]);
      the element-wise operations are written out here as OpenCV documents
      them, the two numerical filters (the Gaussian convolution and the
      Canny detector) are taken as parameters ([Imgproc]);
    - [openshot::Keyframe] and [openshot::EffectBase], taken as interfaces
      ([KeyframeOps], [EffectBaseOps]);
    - JsonCpp's [Json::Value], modelled as a tree whose objects are finite
      maps.

    Conventions: an 8-bit channel ([uchar]) is a [Z] in [0, 255]; an [int]
    is a [Z] in the 32-bit range; a [double] is the rational it denotes
    ([Q]); a C++ exception is a [Throw]; a run of the pixel pipeline that
    reaches undefined behaviour is [Undefined]. Storage is unbounded: no
    allocation fails. *)

From Stdlib Require Import ZArith QArith Qround Lia Lqa.
From stdpp Require Import base option list strings gmap.

Local Set Warnings "-register-all".
Local Open Scope Z_scope.

(** ** Exceptions and the error monad *)

Inductive exception :=
  | InvalidJSON (message : string)       (* openshot::InvalidJSON *)
  | cv_Exception (message : string)      (* cv::Exception raised by CV_Assert *)
  | Json_LogicError (message : string)   (* Json::LogicError *)
  | std_exception (message : string).    (* any other std::exception *)

Inductive Exc (A : Type) :=
  | Ok (a : A)
  | Throw (e : exception).
Arguments Ok {A} a.
Arguments Throw {A} e.

Definition Exc_bind {A B} (f : A → Exc B) (m : Exc A) : Exc B :=
  match m with
  | Ok a => f a
  | Throw e => Throw e
  end.

#[global] Instance Exc_mret : MRet Exc := @Ok.
#[global] Instance Exc_mbind : MBind Exc := @Exc_bind.
#[global] Instance Exc_fmap : FMap Exc := λ A B f, Exc_bind (λ a, Ok (f a)).

(** ** Undefined behaviour *)

(** What C++ leaves undefined and the pixel pipeline can reach. *)
Inductive undefined_behaviour :=
  | out_of_bounds (index size : nat).
    (* [v[index]] on a [std::vector] of [size] elements, [size <= index] *)

(** A run of the pixel pipeline: it behaves (returns a value or throws), or
    it reaches undefined behaviour, after which the program text determines
    nothing. An outcome of [Exc] is read as a run that behaves. *)
Inductive Run (A : Type) :=
  | Behaves (r : Exc A)
  | Undefined (u : undefined_behaviour).
Arguments Behaves {A} r.
Arguments Undefined {A} u.
Coercion Behaves : Exc >-> Run.

Definition Run_bind {A B} (f : A → Run B) (m : Run A) : Run B :=
  match m with
  | Behaves (Ok a) => f a
  | Behaves (Throw e) => Throw e
  | Undefined u => Undefined u
  end.

#[global] Instance Run_mret : MRet Run := λ A a, Behaves (Ok a).
#[global] Instance Run_mbind : MBind Run := @Run_bind.
#[global] Instance Run_fmap : FMap Run := λ A B f, Run_bind (λ a, Behaves (Ok (f a))).

(** ** Numeric conversions *)

(** [int] is a 32-bit two's complement integer. *)
Definition INT_MIN : Z := -2147483648.
Definition INT_MAX : Z := 2147483647.

(** What a conversion from [double] leaves in an [int] when the integer it
    computed is [v]: [v] itself when it fits, and otherwise the "integer
    indefinite" value 0x80000000, that is [INT_MIN]. C++ leaves the
    conversion of a [double] whose integral part does not fit an [int]
    undefined; the value taken here is the one that the x86-64 conversion
    instructions ([cvttsd2si], [cvtsd2si]) produce. *)
Definition int_or_indefinite (v : Z) : Z :=
  if (INT_MIN <=? v) && (v <=? INT_MAX) then v else INT_MIN.

(** [int v = d;] for a [double d]: C++ converts by discarding the fractional
    part (truncation toward zero). *)
Definition double_to_int (d : Q) : Z :=
  int_or_indefinite (Z.quot (Qnum d) (Zpos (Qden d))).

(** The nearest integer, halves to the even neighbour. *)
Definition round_half_even (d : Q) : Z :=
  let f := Qfloor d in
  match Qcompare (d - inject_Z f) (1 # 2) with
  | Lt => f
  | Gt => f + 1
  | Eq => if Z.even f then f else f + 1
  end.

(** [cvRound]: an [int], the nearest integer with halves to the even
    neighbour ([cvtsd2si] under the default rounding mode). *)
Definition cvRound (d : Q) : Z := int_or_indefinite (round_half_even d).

(** The nearest integer with halves away from zero ([std::round]), the
    rounding a reader of "rounded to the nearest integer" expects. *)
Definition round_half_away (d : Q) : Z :=
  if Qle_bool 0 d then Qfloor (d + (1 # 2)) else Qceiling (d - (1 # 2)).

(** an 8-bit unsigned channel value *)
Abbreviation uchar := Z (only parsing).

(** [cv::saturate_cast<uchar>] on an integral value. *)
Definition saturate_cast_uchar (v : Z) : uchar := Z.max 0 (Z.min 255 v).

(** ** Matrices *)

(** A [cv::Mat] with continuous row-major storage. *)
Record Mat (A : Type) := mkMat { rows : nat; cols : nat; data : list A }.
Arguments mkMat {A} rows cols data.
Arguments rows {A} m.
Arguments cols {A} m.
Arguments data {A} m.

(** The four bytes of a [CV_8UC4] element, in memory order. *)
Record Vec4b := mkVec4b { b0 : uchar; b1 : uchar; b2 : uchar; b3 : uchar }.

Definition Mat_wf {A} (m : Mat A) : Prop := length (data m) = (rows m * cols m)%nat.

(** [Mat::empty()] *)
Definition Mat_empty {A} (m : Mat A) : bool :=
  (rows m =? 0)%nat || (cols m =? 0)%nat.

Definition same_size {A B} (m1 : Mat A) (m2 : Mat B) : bool :=
  (rows m1 =? rows m2)%nat && (cols m1 =? cols m2)%nat.

(** A default-constructed [cv::Mat]. *)
Definition Mat_default {A} : Mat A := mkMat 0 0 [].

(** [cv::Mat(size, CV_8UC4, scalar)]: every element is the scalar, each
    component through [saturate_cast<uchar>]. *)
Definition Scalar_to_Vec4b (s : Z * Z * Z * Z) : Vec4b :=
  let '(v0, v1, v2, v3) := s in
  mkVec4b (saturate_cast_uchar v0) (saturate_cast_uchar v1)
          (saturate_cast_uchar v2) (saturate_cast_uchar v3).

Definition Mat_solid (nrows ncols : nat) (s : Z * Z * Z * Z) : Mat Vec4b :=
  mkMat nrows ncols (replicate (nrows * ncols) (Scalar_to_Vec4b s)).

Definition Mat_zeros (nrows ncols : nat) : Mat Vec4b :=
  mkMat nrows ncols (replicate (nrows * ncols) (mkVec4b 0 0 0 0)).

(** [Mat::clone()]: a deep copy; values are immutable here, so the copy is
    the matrix itself and can never alias the source buffer. *)
Definition clone {A} (m : Mat A) : Mat A := m.

(** ** OpenCV operations used by the effect *)

(** [cv::split]: one single-channel plane per channel; an empty source
    releases the output vector. *)
Definition plane (ch : Vec4b → uchar) (m : Mat Vec4b) : Mat uchar :=
  mkMat (rows m) (cols m) (ch <$> data m).

Definition split (m : Mat Vec4b) : list (Mat uchar) :=
  if Mat_empty m then []
  else [plane b0 m; plane b1 m; plane b2 m; plane b3 m].

(** [v[i]] on a [std::vector]: the element, unchecked; past the end of the
    vector the read is undefined behaviour (no exception is raised). *)
Definition vector_index {A} (v : list A) (i : nat) : Run A :=
  match v !! i with
  | Some x => Ok x
  | None => Undefined (out_of_bounds i (length v))
  end.

(** [cv::threshold(src, dst, thresh, maxval, THRESH_BINARY)]:
    [dst = src > thresh ? maxval : 0]. *)
Definition threshold_px (thresh maxval : Z) (v : uchar) : uchar :=
  if thresh <? v then maxval else 0.

Definition threshold (src : Mat uchar) (thresh maxval : Z) : Mat uchar :=
  mkMat (rows src) (cols src) (threshold_px thresh maxval <$> data src).

(** [cv::bitwise_or(src1, src2, dst)]: per-element bitwise disjunction of
    two arrays of the same size. *)
Definition bitwise_or (src1 src2 : Mat uchar) : Run (Mat uchar) :=
  if same_size src1 src2
  then Ok (mkMat (rows src1) (cols src1) (zip_with Z.lor (data src1) (data src2)))
  else Throw (cv_Exception "The operation is neither 'array op array' (where arrays have the same size and type)").

(** [src.copyTo(dst, mask)]: [dst] is (re)allocated, zero-filled, when its
    size differs from the source's; then the elements of [src] at the
    non-zero elements of [mask] are copied; the other elements of [dst] are
    left as they are. A mask without data makes it a plain copy. *)
Fixpoint copy_masked (src dst : list Vec4b) (mask : list uchar) : list Vec4b :=
  match src, dst, mask with
  | s :: src', d :: dst', m :: mask' =>
      (if m =? 0 then d else s) :: copy_masked src' dst' mask'
  | _, _, _ => []
  end.

Definition copyTo (src dst : Mat Vec4b) (mask : Mat uchar) : Run (Mat Vec4b) :=
  if Mat_empty mask then Ok src
  else if negb (same_size src mask) then Throw (cv_Exception "size() == mask.size()")
  else
    let dst0 := if same_size dst src then dst else Mat_zeros (rows src) (cols src) in
    Ok (mkMat (rows src) (cols src) (copy_masked (data src) (data dst0) (data mask))).

(** The numerical filters, which the effect uses as black boxes: the value
    of the separable Gaussian convolution (kernel size [kw] x [kh], standard
    deviations [sigma1], [sigma2], BORDER_DEFAULT) and of the Canny edge map
    (thresholds [low], [high]) at the element of row-major index [i]. *)
Class Imgproc := {
  gaussian_filter : Z → Z → Q → Q → Mat uchar → nat → Z;
  canny_edges : Mat uchar → Z → Z → nat → Z
}.

Section Filters.
Context {filters : Imgproc}.

(** OpenCV derives a missing kernel size from sigma (8-bit images):
    [cvRound(sigma*3*2 + 1) | 1], an [int], and only when sigma is
    positive. *)
Definition auto_ksize (k : Z) (sigma : Q) : Z :=
  if (k <=? 0) && negb (Qle_bool sigma 0)
  then Z.lor (cvRound (sigma * 3 * 2 + 1)) 1
  else k.

(** [cv::GaussianBlur(src, dst, ksize, sigma1, sigma2, BORDER_DEFAULT)].
    The source must not be empty; a dimension of extent 1 forces a kernel
    of extent 1; a 1x1 kernel copies; otherwise the kernel extents, after
    derivation from sigma, must be positive and odd (CV_Assert). *)
Definition GaussianBlur (src : Mat uchar) (ksize : Z * Z) (sigma1 sigma2 : Q)
  : Run (Mat uchar) :=
  if Mat_empty src then Throw (cv_Exception "!_src.empty()")
  else
    let kw := if (cols src =? 1)%nat then 1 else fst ksize in
    let kh := if (rows src =? 1)%nat then 1 else snd ksize in
    if (kw =? 1) && (kh =? 1) then Ok src
    else
      let sigma2 := if Qle_bool sigma2 0 then sigma1 else sigma2 in
      let kw := auto_ksize kw sigma1 in
      let kh := auto_ksize kh sigma2 in
      if (0 <? kw) && Z.odd kw && (0 <? kh) && Z.odd kh
      then Ok (mkMat (rows src) (cols src)
                 (imap (λ i _, saturate_cast_uchar
                                 (gaussian_filter kw kh sigma1 sigma2 src i))
                       (data src)))
      else Throw (cv_Exception
        "ksize.width > 0 && ksize.width % 2 == 1 && ksize.height > 0 && ksize.height % 2 == 1").

(** [cv::Canny(image, edges, threshold1, threshold2)] *)
Definition Canny (image : Mat uchar) (threshold1 threshold2 : Z) : Mat uchar :=
  mkMat (rows image) (cols image)
    (imap (λ i _, saturate_cast_uchar (canny_edges image threshold1 threshold2 i))
          (data image)).
End Filters.

(** ** Qt images *)

Inductive Format := Format_ARGB32 | Format_RGBA8888_Premultiplied.

(** A [QImage]: its pixel format and its raw bytes, four per pixel. *)
Record QImage := mkQImage { format : Format; bits : Mat Vec4b }.

(** A 32-bit pixel word over its four bytes (little-endian host). *)
Definition word_of_bytes (p : Vec4b) : Z :=
  Z.lor (b0 p) (Z.lor (Z.shiftl (b1 p) 8)
    (Z.lor (Z.shiftl (b2 p) 16) (Z.shiftl (b3 p) 24))).

Definition bytes_of_word (x : Z) : Vec4b :=
  mkVec4b (Z.land x 255) (Z.land (Z.shiftr x 8) 255)
          (Z.land (Z.shiftr x 16) 255) (Z.land (Z.shiftr x 24) 255).

Definition qAlpha (x : Z) : Z := Z.land (Z.shiftr x 24) 255.

(** Qt's [qPremultiply] on an ARGB32 word. *)
Definition qPremultiply (x : Z) : Z :=
  let a := qAlpha x in
  let t := Z.land x 0xff00ff * a in
  let t := Z.shiftr (t + Z.land (Z.shiftr t 8) 0xff00ff + 0x800080) 8 in
  let t := Z.land t 0xff00ff in
  let g := Z.land (Z.shiftr x 8) 0xff * a in
  let g := g + Z.land (Z.shiftr g 8) 0xff + 0x80 in
  let g := Z.land g 0xff00 in
  Z.lor (Z.lor g t) (Z.shiftl a 24).

(** Qt's [ARGB2RGBA]: exchange the red and blue bytes of the word. *)
Definition ARGB2RGBA (x : Z) : Z :=
  Z.lor (Z.lor (Z.land (Z.shiftl x 16) 0xff0000) (Z.land (Z.shiftr x 16) 0xff))
        (Z.land x 0xff00ff00).

(** [QImage::convertToFormat(Format_RGBA8888_Premultiplied)] on a
    [Format_ARGB32] image, pixel by pixel. *)
Definition convert_ARGB32_to_RGBA8888_PM (p : Vec4b) : Vec4b :=
  bytes_of_word (ARGB2RGBA (qPremultiply (word_of_bytes p))).

(** [Outline::QImageToBGRACvMat]: a [CV_8UC4] header over the image's own
    bytes ([constBits]); no pixel is converted. *)
Definition QImageToBGRACvMat (qimage : QImage) : Mat Vec4b := bits qimage.

(** [Outline::BGRACvMatToQImage]: the matrix bytes are read as a
    [Format_ARGB32] image, which is converted to
    [Format_RGBA8888_Premultiplied]. *)
Definition BGRACvMatToQImage (img : Mat Vec4b) : QImage :=
  mkQImage Format_RGBA8888_Premultiplied
    (mkMat (rows img) (cols img) (convert_ARGB32_to_RGBA8888_PM <$> data img)).

(** ** JSON documents (JsonCpp's [Json::Value]) *)

Inductive Value :=
  | nullValue
  | booleanValue (b : bool)
  | realValue (d : Q)
  | stringValue (s : string)
  | arrayValue (l : list Value)
  | objectValue (members : gmap string Value).

Definition isNull (v : Value) : bool :=
  match v with nullValue => true | _ => false end.

(** [root[key]] on a [const Json::Value]: the member, or null when the key
    is absent; defined on objects and on null only. *)
Definition Value_get (root : Value) (key : string) : Exc Value :=
  match root with
  | nullValue => Ok nullValue
  | objectValue members => Ok (default nullValue (members !! key))
  | _ => Throw (Json_LogicError
           "in Json::Value::find(begin, end): requires objectValue or nullValue")
  end.

(** ** Collaborators of the effect *)

(** [openshot::Keyframe]: the curve evaluated at a frame index, its JSON
    form, its in-place load (which may throw, leaving the curve in the state
    it reached), and the constructor from a single [double]. *)
Class KeyframeOps (Keyframe : Type) := {
  GetValue : Keyframe → Z → Q;
  Keyframe_JsonValue : Keyframe → Value;
  Keyframe_SetJsonValue : Value → Keyframe → Exc unit * Keyframe;
  Keyframe_of_double : Q → Keyframe
}.

(** The fields of [EffectInfoStruct] that the effect sets. *)
Record EffectInfoStruct := mkInfo {
  class_name : string;
  name : string;
  description : string;
  has_audio : bool;
  has_video : bool
}.

(** [openshot::EffectBase]: the state of the base-class part of an effect,
    its default construction, [InitEffectInfo], its public member [info]
    (read, and assigned in the five fields above), the members of the JSON
    object it serializes to, and its in-place load. The load works on the
    whole base-class part, [info] included. *)
Class EffectBaseOps (EffectBase : Type) := {
  EffectBase_new : EffectBase;
  InitEffectInfo : EffectBase → EffectBase;
  EffectBase_info : EffectBase → EffectInfoStruct;
  EffectBase_set_info : EffectInfoStruct → EffectBase → EffectBase;
  EffectBase_JsonValue : EffectBase → gmap string Value;
  EffectBase_SetJsonValue : Value → EffectBase → Exc unit * EffectBase
}.

(** [openshot::stringToJson] (Json.cpp): the parsed document, or a throw. *)
Class JsonReader := { stringToJson : string → Exc Value }.

(** ** The effect *)

Section Outline.
Context {filters : Imgproc} {reader : JsonReader}.
Context {Keyframe EffectBase : Type}.
Context {curves : KeyframeOps Keyframe} {parent_ops : EffectBaseOps EffectBase}.

(** The class: the base-class part ([class Outline : public EffectBase])
    and the five curves that [Outline.h] declares. *)
Record Outline := mkOutline {
  parent : EffectBase;
  width : Keyframe;
  red : Keyframe;
  green : Keyframe;
  blue : Keyframe;
  alpha : Keyframe
}.

(** [info], the member inherited from [EffectBase] *)
Definition info (o : Outline) : EffectInfoStruct := EffectBase_info (parent o).

Definition set_parent (p : EffectBase) (o : Outline) : Outline :=
  mkOutline p (width o) (red o) (green o) (blue o) (alpha o).
Definition set_width (k : Keyframe) (o : Outline) : Outline :=
  mkOutline (parent o) k (red o) (green o) (blue o) (alpha o).
Definition set_red (k : Keyframe) (o : Outline) : Outline :=
  mkOutline (parent o) (width o) k (green o) (blue o) (alpha o).
Definition set_green (k : Keyframe) (o : Outline) : Outline :=
  mkOutline (parent o) (width o) (red o) k (blue o) (alpha o).
Definition set_blue (k : Keyframe) (o : Outline) : Outline :=
  mkOutline (parent o) (width o) (red o) (green o) k (alpha o).
Definition set_alpha (k : Keyframe) (o : Outline) : Outline :=
  mkOutline (parent o) (width o) (red o) (green o) (blue o) k.

(** [Outline::init_effect_details] (lines 33-44): [InitEffectInfo()], then
    the five assignments to [info]. *)
Definition init_effect_details (o : Outline) : Outline :=
  set_parent
    (EffectBase_set_info
       (mkInfo "Outline" "Outline"
          "Add outline around the image with transparent background." false true)
       (InitEffectInfo (parent o)))
    o.

(** [Outline::Outline()]: width 3, black, opaque. *)
Definition Outline_blank : Outline :=
  init_effect_details
    (mkOutline EffectBase_new
       (Keyframe_of_double 3) (Keyframe_of_double 0) (Keyframe_of_double 0)
       (Keyframe_of_double 0) (Keyframe_of_double 255)).

(** [Outline::Outline(width, red, green, blue, alpha)] *)
Definition Outline_new (width red green blue alpha : Keyframe) : Outline :=
  init_effect_details (mkOutline EffectBase_new width red green blue alpha).

(** *** The resolved parameters (Outline.cpp, lines 53-57) *)

Definition sigmaValue (o : Outline) (frame_number : Z) : Z :=
  double_to_int (GetValue (width o) frame_number / 3).
Definition redValue (o : Outline) (frame_number : Z) : Z :=
  double_to_int (GetValue (red o) frame_number).
Definition greenValue (o : Outline) (frame_number : Z) : Z :=
  double_to_int (GetValue (green o) frame_number).
Definition blueValue (o : Outline) (frame_number : Z) : Z :=
  double_to_int (GetValue (blue o) frame_number).
Definition alphaValue (o : Outline) (frame_number : Z) : Z :=
  double_to_int (GetValue (alpha o) frame_number).

(** *** [Outline::GetFrame] (Outline.cpp, lines 48-107)

    The frame is represented by its image; the result is the image that
    line 102 stores into it. A throw leaves the frame as it was. *)
Definition GetFrame (o : Outline) (frame_image : QImage) (frame_number : Z)
  : Run QImage :=
  let sigmaValue := double_to_int (GetValue (width o) frame_number / 3) in
  let redValue := double_to_int (GetValue (red o) frame_number) in
  let greenValue := double_to_int (GetValue (green o) frame_number) in
  let blueValue := double_to_int (GetValue (blue o) frame_number) in
  let alphaValue := double_to_int (GetValue (alpha o) frame_number) in
  let cv_image := QImageToBGRACvMat frame_image in
  let channels := split cv_image in
  channels_3 ← vector_index channels 3;
  let alpha_mask := clone channels_3 in
  outline_mask ← GaussianBlur alpha_mask (0, 0)
                    (inject_Z sigmaValue) (inject_Z sigmaValue);
  let outline_mask := threshold outline_mask 0 255 in
  let edge_mask := Canny outline_mask 250 255 in
  blurred_edge_mask ← GaussianBlur edge_mask (0, 0) (8 # 10) (8 # 10);
  outline_mask ← bitwise_or outline_mask blurred_edge_mask;
  let solid_color_mat :=
    Mat_solid (rows cv_image) (cols cv_image)
      (blueValue, greenValue, redValue, alphaValue) in
  final_image ← copyTo solid_color_mat Mat_default outline_mask;
  final_image ← copyTo cv_image final_image alpha_mask;
  mret (BGRACvMatToQImage final_image).

(** The stages of [GetFrame], named for reference in the statements. *)

(** lines 63-65: the alpha plane of the image *)
Definition extract_alpha_mask (cv_image : Mat Vec4b) : Run (Mat uchar) :=
  clone <$> vector_index (split cv_image) 3.

(** line 73: the blurred alpha mask *)
Definition blurred_mask (alpha_mask : Mat uchar) (sigma : Z) : Run (Mat uchar) :=
  GaussianBlur alpha_mask (0, 0) (inject_Z sigma) (inject_Z sigma).

(** lines 73-74: "Create the outline mask" *)
Definition create_outline_mask (alpha_mask : Mat uchar) (sigma : Z)
  : Run (Mat uchar) :=
  outline_mask ← blurred_mask alpha_mask sigma;
  mret (threshold outline_mask 0 255).

(** lines 78-87: "Antialias the outline edge" *)
Definition antialias_outline_edge (outline_mask : Mat uchar) : Run (Mat uchar) :=
  let edge_mask := Canny outline_mask 250 255 in
  blurred_edge_mask ← GaussianBlur edge_mask (0, 0) (8 # 10) (8 # 10);
  bitwise_or outline_mask blurred_edge_mask.

(** lines 92, 95: the solid colour written through the outline mask *)
Definition solid_color (o : Outline) (frame_number : Z) : Z * Z * Z * Z :=
  (blueValue o frame_number, greenValue o frame_number,
   redValue o frame_number, alphaValue o frame_number).

Definition place_outline (cv_image : Mat Vec4b) (color : Z * Z * Z * Z)
    (outline_mask : Mat uchar) : Run (Mat Vec4b) :=
  copyTo (Mat_solid (rows cv_image) (cols cv_image) color) Mat_default outline_mask.

(** lines 95-96: the outline first, the original image on top *)
Definition place_layers (cv_image : Mat Vec4b) (color : Z * Z * Z * Z)
    (outline_mask alpha_mask : Mat uchar) : Run (Mat Vec4b) :=
  final_image ← place_outline cv_image color outline_mask;
  copyTo cv_image final_image alpha_mask.

(** The mask the fill is written through (the value of [outline_mask] at
    line 95). *)
Definition compositing_mask (o : Outline) (frame_image : QImage) (frame_number : Z)
  : Run (Mat uchar) :=
  alpha_mask ← extract_alpha_mask (QImageToBGRACvMat frame_image);
  outline_mask ← create_outline_mask alpha_mask (sigmaValue o frame_number);
  antialias_outline_edge outline_mask.

(** The composite handed to [BGRACvMatToQImage] (the value of
    [final_image] at line 98). *)
Definition final_image (o : Outline) (frame_image : QImage) (frame_number : Z)
  : Run (Mat Vec4b) :=
  let cv_image := QImageToBGRACvMat frame_image in
  alpha_mask ← extract_alpha_mask cv_image;
  outline_mask ← create_outline_mask alpha_mask (sigmaValue o frame_number);
  outline_mask ← antialias_outline_edge outline_mask;
  place_layers cv_image (solid_color o frame_number) outline_mask alpha_mask.

(** *** [Outline::JsonValue] (lines 127-140) *)
Definition JsonValue (o : Outline) : Value :=
  let root := EffectBase_JsonValue (parent o) in
  let root := <["type" := stringValue (class_name (info o))]> root in
  let root := <["width" := Keyframe_JsonValue (width o)]> root in
  let root := <["red" := Keyframe_JsonValue (red o)]> root in
  let root := <["green" := Keyframe_JsonValue (green o)]> root in
  let root := <["blue" := Keyframe_JsonValue (blue o)]> root in
  let root := <["alpha" := Keyframe_JsonValue (alpha o)]> root in
  objectValue root.

(** *** Methods that mutate the instance

    A method is a function from the instance to its outcome and the
    instance it leaves behind; a throw keeps the mutations made so far.
    Nothing in the loading methods is undefined: they return or throw. *)
Definition Method (A : Type) : Type := Outline → Exc A * Outline.

Definition ret {A} (a : A) : Method A := λ o, (Ok a, o).

Definition bind {A B} (m : Method A) (f : A → Method B) : Method B :=
  λ o, match m o with
       | (Ok a, o') => f a o'
       | (Throw e, o') => (Throw e, o')
       end.

(** an expression that may throw and touches no field *)
Definition eval {A} (e : Exc A) : Method A := λ o, (e, o).

(** [field.SetJsonValue(v)] on a member of the instance *)
Definition on_field {F} (get : Outline → F) (set : F → Outline → Outline)
    (m : F → Exc unit * F) : Method unit :=
  λ o, let '(r, f) := m (get o) in (r, set f o).

(** [try { body } catch (const std::exception&) { throw e; }] *)
Definition try_catch_rethrow {A} (body : Method A) (e : exception) : Method A :=
  λ o, match body o with
       | (Ok a, o') => (Ok a, o')
       | (Throw _, o') => (Throw e, o')
       end.
End Outline.

Arguments Outline : clear implicits.
Arguments Method : clear implicits.

#[global] Instance Method_mret {K B} : MRet (Method K B) := λ A, ret.
#[global] Instance Method_mbind {K B} : MBind (Method K B) := λ A C f m, bind m f.

Section Loading.
Context {reader : JsonReader}.
Context {Keyframe EffectBase : Type}.
Context {curves : KeyframeOps Keyframe} {parent_ops : EffectBaseOps EffectBase}.

#[local] Abbreviation Outline := (Outline Keyframe EffectBase).
#[local] Abbreviation Method := (Method Keyframe EffectBase).

(** [if (!root[key].isNull()) field.SetJsonValue(root[key]);] *)
Definition load_curve (root : Value) (key : string)
    (get : Outline → Keyframe) (set : Keyframe → Outline → Outline)
  : Method unit :=
  v ← eval (Value_get root key);
  if isNull v then mret ()
  else v ← eval (Value_get root key);
       on_field get set (Keyframe_SetJsonValue v).

(** [Outline::SetJsonValue] (lines 160-176) *)
Definition SetJsonValue (root : Value) : Method unit :=
  on_field parent set_parent (EffectBase_SetJsonValue root) ;;
  load_curve root "width" width set_width ;;
  load_curve root "red" red set_red ;;
  load_curve root "green" green set_green ;;
  load_curve root "blue" blue set_blue ;;
  load_curve root "alpha" alpha set_alpha.

(** [Outline::SetJson] (lines 143-157) *)
Definition SetJson (value : string) : Method unit :=
  try_catch_rethrow
    (root ← eval (stringToJson value);
     SetJsonValue root)
    (InvalidJSON "JSON is invalid (missing keys or invalid data types)").
End Loading.

(** ** Stand-ins for the collaborators, to run the effect on examples *)

Module Examples.

(** Filters of the right shape, standing in for OpenCV's: the blur spreads
    a pixel over its kernel window (the maximum over the window), the edge
    map is empty. *)
Definition window_max (kw kh : Z) (src : Mat uchar) (i : nat) : Z :=
  let c := Z.of_nat (i mod cols src) in
  let r := Z.of_nat (i / cols src) in
  foldr Z.max 0
    (imap (λ j v,
             let cj := Z.of_nat (j mod cols src) in
             let rj := Z.of_nat (j / cols src) in
             if (Z.abs (cj - c) <=? kw / 2) && (Z.abs (rj - r) <=? kh / 2)
             then v else 0)
          (data src)).

#[export] Instance imgproc : Imgproc := {
  gaussian_filter kw kh _ _ src i := window_max kw kh src i;
  canny_edges _ _ _ _ := 0
}.

(** Filters with soft values and edges: the blur is the mean over the
    kernel window, and a pixel is an edge when the next one in memory
    differs from it. *)
Definition window_mean (kw kh : Z) (src : Mat uchar) (i : nat) : Z :=
  let c := Z.of_nat (i mod cols src) in
  let r := Z.of_nat (i / cols src) in
  foldr Z.add 0
    (imap (λ j v,
             let cj := Z.of_nat (j mod cols src) in
             let rj := Z.of_nat (j / cols src) in
             if (Z.abs (cj - c) <=? kw / 2) && (Z.abs (rj - r) <=? kh / 2)
             then v else 0)
          (data src))
  / (kw * kh).

Definition step_edges (image : Mat uchar) (i : nat) : Z :=
  match data image !! i, data image !! S i with
  | Some v, Some w => if v =? w then 0 else 255
  | _, _ => 0
  end.

Definition soft_imgproc : Imgproc := {|
  gaussian_filter kw kh _ _ src i := window_mean kw kh src i;
  canny_edges image _ _ i := step_edges image i
|}.

(** Modelled from the spec: [openshot::Keyframe] (KeyFrame.cpp) is not
    among the sources; a curve is "a function mapping frame index to a
    scalar value" with a JSON document of its own. These are the curves that
    [Keyframe(double)] builds: one point, hence the same value at every
    frame; the JSON form is the point list. *)
Definition point (y : Q) : Value :=
  objectValue {[ "co" := objectValue (<["X" := realValue 1]> {[ "Y" := realValue y ]}) ]}.

Definition point_Y (p : Value) : option Q :=
  match p with
  | objectValue m =>
      match m !! "co" with
      | Some (objectValue co) =>
          match co !! "Y" with Some (realValue y) => Some y | _ => None end
      | _ => None
      end
  | _ => None
  end.

#[export] Instance constant_curves : KeyframeOps Q := {
  GetValue y _ := y;
  Keyframe_JsonValue y := objectValue {[ "Points" := arrayValue [point y] ]};
  Keyframe_SetJsonValue v y :=
    match v with
    | objectValue m =>
        match m !! "Points" with
        | Some (arrayValue [p]) =>
            match point_Y p with
            | Some y' => (Ok (), y')
            | None => (Throw (Json_LogicError "Value is not convertible to double."), 0%Q)
            end
        | _ => (Ok (), 0%Q)
        end
    | _ => (Ok (), 0%Q)
    end;
  Keyframe_of_double y := y
}.

(** Modelled from the spec: [openshot::EffectBase] is not among the
    sources; the document carries "base-effect fields (inherited,
    external)". A parent that keeps an identifier beside [info], and looks
    the identifier up in the document it loads. *)
Record base_part := mkBase { base_id : string; base_info : EffectInfoStruct }.

#[export] Instance effect_base : EffectBaseOps base_part := {
  EffectBase_new := mkBase "" (mkInfo "" "" "" false false);
  InitEffectInfo b := mkBase (base_id b) (mkInfo "" "" "" false false);
  EffectBase_info := base_info;
  EffectBase_set_info i b := mkBase (base_id b) i;
  EffectBase_JsonValue b := {[ "id" := stringValue (base_id b) ]};
  EffectBase_SetJsonValue root b :=
    match Value_get root "id" with
    | Ok (stringValue id') => (Ok (), mkBase id' (base_info b))
    | Ok _ => (Ok (), b)
    | Throw e => (Throw e, b)
    end
}.

(** Modelled from the spec: [openshot::stringToJson] (Json.cpp) is not
    among the sources; an unparsable document "signals a structured error".
    A reader that knows two documents. *)
#[export] Instance reader : JsonReader := {
  stringToJson s :=
    if String.eqb s "{}" then Ok (objectValue ∅)
    else if String.eqb s "null" then Ok nullValue
    else Throw (InvalidJSON "JSON could not be parsed (or is invalid)")
}.

Definition opaque_red : Vec4b := mkVec4b 255 0 0 255.
Definition soft_edge : Vec4b := mkVec4b 100 0 0 128.
Definition clear : Vec4b := mkVec4b 0 0 0 0.

(** a 1x3 strip: opaque, half-covered, transparent *)
Definition strip : QImage :=
  mkQImage Format_RGBA8888_Premultiplied (mkMat 1 3 [opaque_red; soft_edge; clear]).

(** a 2x2 opaque square *)
Definition square : QImage :=
  mkQImage Format_RGBA8888_Premultiplied
    (mkMat 2 2 [opaque_red; opaque_red; opaque_red; opaque_red]).

(** one row of nine pixels, the first one opaque *)
Definition row : QImage :=
  mkQImage Format_RGBA8888_Premultiplied
    (mkMat 1 9 [opaque_red; clear; clear; clear; clear; clear; clear; clear; clear]).

(** an image without pixels *)
Definition null_image : QImage :=
  mkQImage Format_RGBA8888_Premultiplied (mkMat 0 0 []).

Definition blank : Outline Q base_part := Outline_blank.

(** width 0, green fill *)
Definition hairline : Outline Q base_part := Outline_new 0%Q 0%Q 255%Q 0%Q 255%Q.

(** red resolves to 254.7 *)
Definition fractional : Outline Q base_part :=
  Outline_new 3%Q (2547 # 10)%Q 0%Q 0%Q 255%Q.

(** a document with the red curve only *)
Definition red_only : gmap string Value :=
  {[ "red" := Keyframe_JsonValue (128%Q : Q) ]}.


(** width 3, green fill *)
Definition green_outline : Outline Q base_part := Outline_new 3%Q 0%Q 255%Q 0%Q 255%Q.






(** a document whose width loads and whose red point has no Y; blue is
    present, green and alpha are not *)
Definition broken_red : gmap string Value :=
  <["width" := Keyframe_JsonValue (9%Q : Q)]>
    (<["red" := objectValue {[ "Points" := arrayValue [objectValue ∅] ]}]>
       {[ "blue" := Keyframe_JsonValue (7%Q : Q) ]}).

(** a document that is an array *)
Definition array_document : Value := arrayValue [].
End Examples.

(** ** Vocabulary of the statements *)

(** Two matrices have the same extent and as many stored elements. *)
Definition same_shape {A B} (m1 : Mat A) (m2 : Mat B) : Prop :=
  rows m1 = rows m2 ∧ cols m1 = cols m2 ∧ length (data m1) = length (data m2).

(** the pixel that the first masked write leaves untouched *)
Definition transparent : Vec4b := mkVec4b 0 0 0 0.

(** the four channels are 8-bit values *)
Definition bytes_in_range (p : Vec4b) : Prop :=
  0 <= b0 p < 256 ∧ 0 <= b1 p < 256 ∧ 0 <= b2 p < 256 ∧ 0 <= b3 p < 256.

(** The two halves of [qPremultiply]: the red and blue lanes, scaled
    together, and the green lane. *)
Definition premul_rb (rb a : Z) : Z :=
  let t := rb * a in
  Z.land (Z.shiftr (t + Z.land (Z.shiftr t 8) 0xff00ff + 0x800080) 8) 0xff00ff.

Definition premul_g (g a : Z) : Z :=
  let g := g * a in
  Z.land (g + Z.land (Z.shiftr g 8) 0xff + 0x80) 0xff00.

(** every 8-bit value *)
Definition all_bytes : list Z := Z.of_nat <$> seq 0 256.

(** the six members that [JsonValue] writes itself *)
Definition own_keys : list string :=
  ["type"; "width"; "red"; "green"; "blue"; "alpha"].

(** a document that is neither an object nor null *)
Definition not_a_document (root : Value) : Prop :=
  match root with
  | nullValue | objectValue _ => False
  | _ => True
  end.

(** The kernel extent that [cv::GaussianBlur] derives from an integral
    sigma, [6 * sigma + 1], fits an [int]. *)
Definition kernel_fits (sigma : Z) : Prop := 6 * sigma + 1 <= INT_MAX.

(** The integral part of [d] fits an [int]. *)
Definition int_representable (d : Q) : Prop :=
  (inject_Z INT_MIN - 1 < d)%Q ∧ (d < inject_Z INT_MAX + 1)%Q.

(** [v] is [d] without its fractional part. *)
Definition truncation_of (d : Q) (v : Z) : Prop :=
  ((0 <= d)%Q ∧ (inject_Z v <= d)%Q ∧ (d < inject_Z (v + 1))%Q)
  ∨ ((d <= 0)%Q ∧ (inject_Z (v - 1) < d)%Q ∧ (d <= inject_Z v)%Q).

Section Vocabulary.
Context {Keyframe EffectBase : Type}.
Context {curves : KeyframeOps Keyframe} {parent_ops : EffectBaseOps EffectBase}.
Implicit Types (k : Keyframe) (members : gmap string Value).

(** A method leaves a field alone. *)
Definition preserves {A F} (get : Outline Keyframe EffectBase → F)
    (m : Method Keyframe EffectBase A) : Prop :=
  ∀ o, get (m o).2 = get o.

(** The contract of a curve's own JSON form: it is not null, and loading
    it into a curve [k0] succeeds and yields a curve with the values of
    [k]. *)
Definition loads_back k k0 : Prop :=
  isNull (Keyframe_JsonValue k) = false
  ∧ ∃ k', Keyframe_SetJsonValue (Keyframe_JsonValue k) k0 = (Ok (), k')
          ∧ ∀ frame_number, GetValue k' frame_number = GetValue k frame_number.

(** What loading the member [key] of an object does to a curve: nothing
    when the member is absent (or null), the curve's own load otherwise. *)
Definition loads_cleanly members (key : string) k : Prop :=
  match members !! key with
  | None => True
  | Some v => if isNull v then True else (Keyframe_SetJsonValue v k).1 = Ok ()
  end.

Definition curve_after members (key : string) (old new : Keyframe) : Prop :=
  match members !! key with
  | None => new = old
  | Some v => if isNull v then new = old
              else new = (Keyframe_SetJsonValue v old).2
  end.

End Vocabulary.

(** * Properties *)

(** ** The error monad *)

Lemma Run_bind_Ok {A B} (f : A → Run B) (m : Run A) (b : B) :
  mbind (M := Run) f m = Ok b → ∃ a, m = Ok a ∧ f a = Ok b.
Proof. destruct m as [[a|e]|u]; [eauto | discriminate | discriminate]. Qed.

Lemma Run_fmap_Ok {A B} (f : A → B) (m : Run A) (b : B) :
  fmap (M := Run) f m = Ok b → ∃ a, m = Ok a ∧ b = f a.
Proof.
  destruct m as [[a|e]|u]; [intros [= <-]; eauto | discriminate | discriminate].
Qed.

Ltac exc_inv H :=
  first
    [ apply Run_bind_Ok in H; destruct H as (? & ? & H)
    | apply Run_fmap_Ok in H; destruct H as (? & H & ?)
    | injection H as H ].

(** ** Shapes *)

Lemma same_shape_refl {A} (m : Mat A) : same_shape m m.
Proof. by repeat split. Qed.

Lemma same_shape_trans {A B C} (m1 : Mat A) (m2 : Mat B) (m3 : Mat C) :
  same_shape m1 m2 → same_shape m2 m3 → same_shape m1 m3.
Proof. intros (?&?&?) (?&?&?). repeat split; congruence. Qed.

Lemma same_shape_sym {A B} (m1 : Mat A) (m2 : Mat B) :
  same_shape m1 m2 → same_shape m2 m1.
Proof. intros (?&?&?). by repeat split. Qed.

Lemma same_shape_size {A B} (m1 : Mat A) (m2 : Mat B) :
  same_shape m1 m2 → same_size m1 m2 = true.
Proof.
  unfold same_size. intros (-> & -> & _). by rewrite !Nat.eqb_refl.
Qed.

Lemma same_shape_empty {A B} (m1 : Mat A) (m2 : Mat B) :
  same_shape m1 m2 → Mat_empty m1 = Mat_empty m2.
Proof. intros (Hr & Hc & _). unfold Mat_empty. by rewrite Hr, Hc. Qed.

Lemma plane_shape (ch : Vec4b → uchar) (m : Mat Vec4b) : same_shape (plane ch m) m.
Proof. repeat split. simpl. apply length_fmap. Qed.

Lemma threshold_shape (src : Mat uchar) (thresh maxval : Z) :
  same_shape (threshold src thresh maxval) src.
Proof. repeat split. simpl. apply length_fmap. Qed.

Lemma Canny_shape `{Imgproc} (image : Mat uchar) (t1 t2 : Z) :
  same_shape (Canny image t1 t2) image.
Proof. repeat split. simpl. apply length_imap. Qed.

Lemma GaussianBlur_shape `{Imgproc} (src dst : Mat uchar) ksize sigma1 sigma2 :
  GaussianBlur src ksize sigma1 sigma2 = Ok dst → same_shape dst src.
Proof.
  unfold GaussianBlur. intros Hb.
  repeat case_match; try discriminate; injection Hb as <-;
    first [ apply same_shape_refl | repeat split; simpl; apply length_imap ].
Qed.

Lemma bitwise_or_shape (src1 src2 dst : Mat uchar) :
  same_shape src1 src2 → bitwise_or src1 src2 = Ok dst →
  same_shape dst src1 ∧ data dst = zip_with Z.lor (data src1) (data src2).
Proof.
  intros Hs. unfold bitwise_or. rewrite (same_shape_size _ _ Hs).
  intros [= <-]. split; [|done]. repeat split. simpl.
  destruct Hs as (_ & _ & Hl). rewrite length_zip_with. lia.
Qed.

(** ** Masked copies *)

Lemma copy_masked_lookup (src dst : list Vec4b) (mask : list uchar) (i : nat) :
  copy_masked src dst mask !! i =
    match src !! i, dst !! i, mask !! i with
    | Some s, Some d, Some m => Some (if m =? 0 then d else s)
    | _, _, _ => None
    end.
Proof.
  revert dst mask i.
  induction src as [|s src IH]; intros [|d dst] [|m mask] [|i]; simpl;
    try done; try (by repeat case_match); apply IH.
Qed.

Lemma copy_masked_length (src dst : list Vec4b) (mask : list uchar) :
  length src = length mask → length dst = length mask →
  length (copy_masked src dst mask) = length mask.
Proof.
  revert dst mask. induction src as [|s src IH]; intros [|d dst] [|m mask];
    simpl; try discriminate; [done|].
  intros [= Hs] [= Hd]. f_equal. by apply IH.
Qed.

(** ** The alpha plane (lines 63-65) *)

Lemma extract_alpha_mask_eq (cv_image : Mat Vec4b) :
  extract_alpha_mask cv_image =
    if Mat_empty cv_image then Undefined (out_of_bounds 3 0)
    else Ok (plane b3 cv_image).
Proof. unfold extract_alpha_mask, split. by destruct (Mat_empty cv_image). Qed.

Lemma extract_alpha_mask_Ok (cv_image : Mat Vec4b) (alpha_mask : Mat uchar) :
  extract_alpha_mask cv_image = Ok alpha_mask →
  Mat_empty cv_image = false ∧ alpha_mask = plane b3 cv_image.
Proof.
  rewrite extract_alpha_mask_eq. destruct (Mat_empty cv_image); [discriminate|].
  by intros [= <-].
Qed.

(** ** [GetFrame] is the composition of its stages *)

Section Stages.
Context {filters : Imgproc}.
Context {Keyframe EffectBase : Type}.
Context {curves : KeyframeOps Keyframe} {parent_ops : EffectBaseOps EffectBase}.
Implicit Types (o : Outline Keyframe EffectBase) (frame_image : QImage).

Lemma GetFrame_stages o frame_image frame_number :
  GetFrame o frame_image frame_number =
    BGRACvMatToQImage <$> final_image o frame_image frame_number.
Proof.
  unfold GetFrame, final_image, extract_alpha_mask, create_outline_mask,
    blurred_mask, antialias_outline_edge, place_layers, place_outline,
    solid_color, sigmaValue, redValue, greenValue, blueValue, alphaValue.
  destruct (vector_index _ 3) as [[ch|e]|u]; [|done|done]. cbn.
  destruct (GaussianBlur (clone ch) _ _ _) as [[om|e]|u]; [|done|done]. cbn.
  destruct (GaussianBlur (Canny _ _ _) _ _ _) as [[bm|e]|u]; [|done|done]. cbn.
  destruct (bitwise_or _ _) as [[fm|e]|u]; [|done|done]. cbn.
  destruct (copyTo _ Mat_default _) as [[f1|e]|u]; [|done|done]. cbn.
  by destruct (copyTo _ f1 _) as [[f2|e]|u].
Qed.

Lemma create_outline_mask_shape (alpha_mask outline_mask : Mat uchar) sigma :
  create_outline_mask alpha_mask sigma = Ok outline_mask →
  same_shape outline_mask alpha_mask.
Proof.
  unfold create_outline_mask, blurred_mask. intros Hc. exc_inv Hc.
  injection Hc as <-.
  eapply same_shape_trans; [apply threshold_shape|].
  by eapply GaussianBlur_shape.
Qed.

Lemma antialias_outline_edge_shape (outline_mask mask : Mat uchar) :
  antialias_outline_edge outline_mask = Ok mask → same_shape mask outline_mask.
Proof.
  unfold antialias_outline_edge. intros Ha. exc_inv Ha.
  eapply bitwise_or_shape; [|done].
  apply same_shape_sym. eapply same_shape_trans; [by eapply GaussianBlur_shape|].
  apply Canny_shape.
Qed.

Lemma compositing_mask_shape o frame_image frame_number (mask : Mat uchar) :
  compositing_mask o frame_image frame_number = Ok mask →
  Mat_empty (bits frame_image) = false ∧ same_shape mask (bits frame_image).
Proof.
  unfold compositing_mask, QImageToBGRACvMat. intros Hm.
  exc_inv Hm. exc_inv Hm.
  match goal with Ha : extract_alpha_mask _ = _ |- _ =>
    apply extract_alpha_mask_Ok in Ha as [Hne ->] end.
  split; [done|].
  eapply same_shape_trans; [by eapply antialias_outline_edge_shape|].
  eapply same_shape_trans; [by eapply create_outline_mask_shape|].
  apply plane_shape.
Qed.
End Stages.

(** ** The two masked writes (lines 92-96) *)

Lemma Mat_empty_false_rows {A} (m : Mat A) :
  Mat_empty m = false → (0 =? rows m)%nat = false.
Proof.
  unfold Mat_empty. intros [Hr _]%orb_false_iff.
  apply Nat.eqb_neq. apply Nat.eqb_neq in Hr. lia.
Qed.

Lemma place_outline_pixels (cv_image : Mat Vec4b) (color : Z * Z * Z * Z)
    (outline_mask : Mat uchar) :
  Mat_empty outline_mask = false →
  same_shape outline_mask cv_image →
  Mat_wf cv_image →
  ∃ filled,
    place_outline cv_image color outline_mask = Ok filled
    ∧ same_shape filled cv_image
    ∧ ∀ i m, data outline_mask !! i = Some m →
        data filled !! i =
          Some (if m =? 0 then transparent else Scalar_to_Vec4b color).
Proof.
  intros Hne Hs Hwf. pose proof Hs as (Hr & Hc & Hl). unfold Mat_wf in Hwf.
  unfold place_outline, copyTo. rewrite Hne.
  assert (same_size (Mat_solid (rows cv_image) (cols cv_image) color) outline_mask
          = true) as ->.
  { unfold same_size. simpl. rewrite Hr, Hc. by rewrite !Nat.eqb_refl. }
  assert (same_size (@Mat_default Vec4b)
            (Mat_solid (rows cv_image) (cols cv_image) color) = false) as ->.
  { change ((0 =? rows cv_image)%nat && (0 =? cols cv_image)%nat = false).
    rewrite <- Hr. by rewrite (Mat_empty_false_rows _ Hne). }
  simpl. eexists. split; [done|]. split.
  - repeat split. simpl. rewrite copy_masked_length; rewrite ?length_replicate; lia.
  - intros i m Hi. simpl. rewrite copy_masked_lookup, Hi.
    apply lookup_lt_Some in Hi as Hlt.
    rewrite !lookup_replicate_2 by lia. done.
Qed.

Lemma place_layers_pixels (cv_image : Mat Vec4b) (color : Z * Z * Z * Z)
    (outline_mask : Mat uchar) :
  Mat_empty cv_image = false →
  same_shape outline_mask cv_image →
  Mat_wf cv_image →
  ∃ composite,
    place_layers cv_image color outline_mask (plane b3 cv_image) = Ok composite
    ∧ same_shape composite cv_image
    ∧ ∀ i px m, data cv_image !! i = Some px → data outline_mask !! i = Some m →
        data composite !! i =
          Some (if b3 px =? 0
                then (if m =? 0 then transparent else Scalar_to_Vec4b color)
                else px).
Proof.
  intros Hne Hs Hwf.
  assert (Mat_empty outline_mask = false) as Hme
    by (by rewrite (same_shape_empty _ _ Hs)).
  destruct (place_outline_pixels cv_image color outline_mask Hme Hs Hwf)
    as (filled & Hf & Hfs & Hpx).
  unfold place_layers. rewrite Hf. cbn. unfold copyTo.
  rewrite (same_shape_empty _ _ (plane_shape b3 cv_image)), Hne.
  rewrite (same_shape_size _ _ (same_shape_sym _ _ (plane_shape b3 cv_image))).
  rewrite (same_shape_size _ _ Hfs). simpl.
  destruct Hfs as (_ & _ & Hfl).
  eexists. split; [done|]. split.
  - repeat split. simpl.
    rewrite copy_masked_length; rewrite ?length_fmap; lia.
  - intros i px m Hi Hm. simpl.
    rewrite copy_masked_lookup, Hi, (Hpx _ _ Hm), list_lookup_fmap, Hi. done.
Qed.

Section Pixels.
Context {filters : Imgproc}.
Context {Keyframe EffectBase : Type}.
Context {curves : KeyframeOps Keyframe} {parent_ops : EffectBaseOps EffectBase}.
Implicit Types (o : Outline Keyframe EffectBase) (frame_image : QImage).

(** When the compositing mask is computed, so is the composite, and every
    pixel of it is the source pixel where the source alpha is non-zero,
    else the fill where the mask is non-zero, else transparent. *)
Lemma final_image_pixels o frame_image frame_number (mask : Mat uchar) :
  compositing_mask o frame_image frame_number = Ok mask →
  Mat_wf (bits frame_image) →
  ∃ composite,
    final_image o frame_image frame_number = Ok composite
    ∧ same_shape composite (bits frame_image)
    ∧ ∀ i px m, data (bits frame_image) !! i = Some px → data mask !! i = Some m →
        data composite !! i =
          Some (if b3 px =? 0
                then (if m =? 0 then transparent
                      else Scalar_to_Vec4b (solid_color o frame_number))
                else px).
Proof.
  intros Hm Hwf.
  destruct (compositing_mask_shape _ _ _ _ Hm) as [Hne Hs].
  destruct (place_layers_pixels (bits frame_image) (solid_color o frame_number)
              mask Hne Hs Hwf) as (composite & Hc & Hcs & Hpx).
  exists composite. split; [|done].
  revert Hm. unfold compositing_mask, final_image, QImageToBGRACvMat.
  rewrite extract_alpha_mask_eq, Hne. cbn.
  destruct (create_outline_mask _ _) as [[om|e]|u]; [|done|done]. cbn.
  intros ->. cbn. done.
Qed.

Lemma final_image_mask o frame_image frame_number (composite : Mat Vec4b) :
  final_image o frame_image frame_number = Ok composite →
  ∃ mask, compositing_mask o frame_image frame_number = Ok mask.
Proof.
  unfold compositing_mask, final_image.
  destruct (extract_alpha_mask _) as [[am|e]|u]; [|done|done]. cbn.
  destruct (create_outline_mask _ _) as [[om|e]|u]; [|done|done]. cbn.
  destruct (antialias_outline_edge _) as [[fm|e]|u]; [|done|done]. eauto.
Qed.
End Pixels.

(** ** When the blur is accepted *)

Lemma int_or_indefinite_fits (v : Z) :
  INT_MIN <= v <= INT_MAX → int_or_indefinite v = v.
Proof.
  intros Hv. unfold int_or_indefinite.
  destruct (Z.leb_spec INT_MIN v), (Z.leb_spec v INT_MAX); simpl; lia.
Qed.

Lemma int_or_indefinite_overflow (v : Z) :
  v < INT_MIN ∨ INT_MAX < v → int_or_indefinite v = INT_MIN.
Proof.
  intros Hv. unfold int_or_indefinite.
  destruct (Z.leb_spec INT_MIN v), (Z.leb_spec v INT_MAX); simpl; lia.
Qed.

Lemma round_half_even_nonneg (d : Q) : (0 <= d)%Q → 0 <= round_half_even d.
Proof.
  intros Hd. unfold round_half_even.
  assert (0 <= Qfloor d) by (change 0 with (Qfloor 0); by apply Qfloor_resp_le).
  repeat case_match; lia.
Qed.

Lemma round_half_even_integral (d : Q) (k : Z) :
  (d == inject_Z k)%Q → round_half_even d = k.
Proof.
  intros Hd. unfold round_half_even.
  assert (Qfloor d = k) as -> by (rewrite Hd; apply Qfloor_Z).
  assert ((d - inject_Z k ?= 1 # 2)%Q = Lt) as ->; [|done].
  rewrite <- Qlt_alt, Hd. unfold Qminus. rewrite Qplus_opp_r. reflexivity.
Qed.

Lemma lor_1_odd (x : Z) : Z.odd (Z.lor x 1) = true.
Proof.
  rewrite <- Z.bit0_odd, Z.lor_spec. change (Z.testbit 1 0) with true.
  apply orb_true_r.
Qed.

Lemma lor_1_pos (x : Z) : 0 <= x → 0 < Z.lor x 1.
Proof.
  intros Hx. assert (0 <= Z.lor x 1) by (apply Z.lor_nonneg; lia).
  pose proof (lor_1_odd x) as Ho.
  destruct (Z.eq_dec (Z.lor x 1) 0) as [He|]; [|lia].
  rewrite He in Ho. discriminate.
Qed.

(** The kernel extent derived from a positive sigma is accepted when the
    rounded [sigma*3*2 + 1] fits an [int]. *)
Lemma auto_ksize_ok (k : Z) (sigma : Q) :
  (0 < sigma)%Q → round_half_even (sigma * 3 * 2 + 1) <= INT_MAX →
  k = 0 ∨ k = 1 →
  (0 <? auto_ksize k sigma) && Z.odd (auto_ksize k sigma) = true.
Proof.
  intros Hs Hfit [-> | ->]; unfold auto_ksize; simpl; [|done].
  assert (Qle_bool sigma 0 = false) as ->.
  { apply not_true_is_false. rewrite Qle_bool_iff. lra. }
  simpl. rewrite lor_1_odd, andb_true_r. apply Z.ltb_lt, lor_1_pos.
  assert (0 <= round_half_even (sigma * 3 * 2 + 1))
    by (apply round_half_even_nonneg; lra).
  unfold cvRound. rewrite int_or_indefinite_fits; [done|].
  unfold INT_MIN, INT_MAX in *. lia.
Qed.

Lemma auto_ksize_nonpositive_sigma (sigma : Q) :
  (sigma <= 0)%Q → auto_ksize 0 sigma = 0.
Proof.
  intros Hs. unfold auto_ksize.
  apply Qle_bool_iff in Hs. by rewrite Hs.
Qed.

(** No kernel extent is derived from a sigma that is not positive, and the
    one derived from a sigma whose [sigma*3*2 + 1] overflows an [int] is
    negative. *)
Lemma auto_ksize_rejected (sigma : Q) :
  (sigma <= 0)%Q ∨ INT_MAX < round_half_even (sigma * 3 * 2 + 1) →
  (0 <? auto_ksize 0 sigma) = false.
Proof.
  intros [Hs | Hbig].
  - by rewrite auto_ksize_nonpositive_sigma.
  - unfold auto_ksize. simpl. destruct (Qle_bool sigma 0); [done|]. simpl.
    unfold cvRound. rewrite int_or_indefinite_overflow by (by right).
    reflexivity.
Qed.

Section Completion.
Context {filters : Imgproc}.

(** With a positive sigma whose kernel extent fits an [int],
    [GaussianBlur] with [Size(0, 0)] accepts every non-empty image. *)
Lemma GaussianBlur_completes (src : Mat uchar) (sigma : Q) :
  Mat_empty src = false → (0 < sigma)%Q →
  round_half_even (sigma * 3 * 2 + 1) <= INT_MAX →
  ∃ dst, GaussianBlur src (0, 0) sigma sigma = Ok dst.
Proof.
  intros Hne Hs Hfit. unfold GaussianBlur. rewrite Hne. cbn [fst snd].
  destruct (_ && _) eqn:Hk; [eauto|].
  assert ((if Qle_bool sigma 0 then sigma else sigma) = sigma) as ->
    by (by destruct (Qle_bool sigma 0)).
  assert (∀ b : bool, (if b then 1 else 0) = 0 ∨ (if b then 1 else 0) = 1) as Hb
    by (intros []; auto).
  pose proof (auto_ksize_ok _ sigma Hs Hfit (Hb (cols src =? 1)%nat)) as Hw.
  pose proof (auto_ksize_ok _ sigma Hs Hfit (Hb (rows src =? 1)%nat)) as Hh.
  apply andb_true_iff in Hw as [-> ->], Hh as [-> ->]. simpl. eauto.
Qed.

(** When no positive kernel extent can be derived from sigma,
    [GaussianBlur] with [Size(0, 0)] rejects every image that is not empty
    and not a single pixel. *)
Lemma GaussianBlur_no_kernel (src : Mat uchar) (sigma : Q) :
  Mat_empty src = false → (0 <? auto_ksize 0 sigma) = false →
  rows src ≠ 1%nat ∨ cols src ≠ 1%nat →
  GaussianBlur src (0, 0) sigma sigma = Throw (cv_Exception
    "ksize.width > 0 && ksize.width % 2 == 1 && ksize.height > 0 && ksize.height % 2 == 1").
Proof.
  intros Hne H0 Hdim. unfold GaussianBlur. rewrite Hne. cbn [fst snd].
  assert ((if Qle_bool sigma 0 then sigma else sigma) = sigma) as ->
    by (by destruct (Qle_bool sigma 0)).
  destruct (cols src =? 1)%nat eqn:Hc, (rows src =? 1)%nat eqn:Hr; simpl.
  - apply Nat.eqb_eq in Hc, Hr. by destruct Hdim.
  - rewrite H0. simpl. by rewrite ?andb_false_r.
  - by rewrite H0.
  - by rewrite H0.
Qed.

(** With a sigma that is not positive, [GaussianBlur] with [Size(0, 0)]
    rejects every image that is not empty and not a single pixel: no
    kernel extent can be derived. *)
Lemma GaussianBlur_rejects (src : Mat uchar) (sigma : Q) :
  Mat_empty src = false → (sigma <= 0)%Q →
  rows src ≠ 1%nat ∨ cols src ≠ 1%nat →
  GaussianBlur src (0, 0) sigma sigma = Throw (cv_Exception
    "ksize.width > 0 && ksize.width % 2 == 1 && ksize.height > 0 && ksize.height % 2 == 1").
Proof.
  intros Hne Hs Hdim. apply GaussianBlur_no_kernel; [done| |done].
  apply auto_ksize_rejected. by left.
Qed.

(** An empty source is rejected. *)
Lemma GaussianBlur_empty (src : Mat uchar) ksize (sigma1 sigma2 : Q) :
  Mat_empty src = true →
  GaussianBlur src ksize sigma1 sigma2 = Throw (cv_Exception "!_src.empty()").
Proof. intros He. unfold GaussianBlur. by rewrite He. Qed.

End Completion.

Section Completes.
Context {filters : Imgproc}.
Context {Keyframe EffectBase : Type}.
Context {curves : KeyframeOps Keyframe} {parent_ops : EffectBaseOps EffectBase}.
Implicit Types (o : Outline Keyframe EffectBase) (frame_image : QImage).

Lemma kernel_extent_integral (sigma : Z) :
  round_half_even (inject_Z sigma * 3 * 2 + 1) = 6 * sigma + 1.
Proof.
  apply round_half_even_integral.
  unfold Qeq, inject_Z. simpl. lia.
Qed.

Lemma compositing_mask_completes o frame_image frame_number :
  Mat_empty (bits frame_image) = false →
  0 < sigmaValue o frame_number →
  kernel_fits (sigmaValue o frame_number) →
  ∃ mask, compositing_mask o frame_image frame_number = Ok mask.
Proof.
  intros Hne Hs Hfit. unfold compositing_mask, QImageToBGRACvMat.
  rewrite extract_alpha_mask_eq, Hne. cbn.
  unfold create_outline_mask, blurred_mask.
  destruct (GaussianBlur_completes (plane b3 (bits frame_image))
              (inject_Z (sigmaValue o frame_number))) as [bl Hbl].
  { by rewrite (same_shape_empty _ _ (plane_shape b3 _)). }
  { change 0%Q with (inject_Z 0). rewrite <- Zlt_Qlt. lia. }
  { by rewrite kernel_extent_integral. }
  rewrite Hbl. cbn. unfold antialias_outline_edge.
  pose proof (GaussianBlur_shape _ _ _ _ _ Hbl) as Hsh.
  set (om := threshold bl 0 255).
  assert (same_shape om (plane b3 (bits frame_image))) as Hom.
  { eapply same_shape_trans; [apply threshold_shape | done]. }
  destruct (GaussianBlur_completes (Canny om 250 255) (8 # 10)) as [be Hbe].
  { rewrite (same_shape_empty _ _ (Canny_shape om 250 255)).
    rewrite (same_shape_empty _ _ Hom).
    by rewrite (same_shape_empty _ _ (plane_shape b3 _)). }
  { reflexivity. }
  { by vm_compute. }
  rewrite Hbe. cbn. unfold bitwise_or.
  rewrite same_shape_size; [eauto|].
  apply same_shape_sym.
  eapply same_shape_trans; [by eapply GaussianBlur_shape | apply Canny_shape].
Qed.

Lemma GetFrame_completes o frame_image frame_number :
  Mat_wf (bits frame_image) →
  Mat_empty (bits frame_image) = false →
  0 < sigmaValue o frame_number →
  kernel_fits (sigmaValue o frame_number) →
  ∃ out, GetFrame o frame_image frame_number = Ok out.
Proof.
  intros Hwf Hne Hs Hfit.
  destruct (compositing_mask_completes o frame_image frame_number Hne Hs Hfit)
    as [mask Hm].
  destruct (final_image_pixels o frame_image frame_number mask Hm Hwf)
    as (composite & Hc & _).
  rewrite GetFrame_stages, Hc. cbn. eauto.
Qed.

(** The local variables of a run of [GetFrame] that returns: the blurred
    alpha mask of line 73, the blurred edge mask of line 83, the mask of
    line 87, the canvas after line 95 and the composite after line 96. *)
Lemma GetFrame_locals o frame_image frame_number (out : QImage) :
  GetFrame o frame_image frame_number = Ok out →
  ∃ blurred blurred_edge_mask mask filled composite,
    Mat_empty (bits frame_image) = false
    ∧ blurred_mask (plane b3 (bits frame_image)) (sigmaValue o frame_number)
      = Ok blurred
    ∧ GaussianBlur (Canny (threshold blurred 0 255) 250 255) (0, 0) (8 # 10) (8 # 10)
      = Ok blurred_edge_mask
    ∧ bitwise_or (threshold blurred 0 255) blurred_edge_mask = Ok mask
    ∧ place_outline (bits frame_image) (solid_color o frame_number) mask
      = Ok filled
    ∧ copyTo (bits frame_image) filled (plane b3 (bits frame_image))
      = Ok composite
    ∧ out = BGRACvMatToQImage composite.
Proof.
  rewrite GetFrame_stages. intros Hg.
  apply Run_fmap_Ok in Hg as (composite & Hg & ->).
  unfold final_image, QImageToBGRACvMat in Hg.
  rewrite extract_alpha_mask_eq in Hg.
  destruct (Mat_empty (bits frame_image)) eqn:Hne; [discriminate|].
  apply Run_bind_Ok in Hg as (alpha_mask & [= <-] & Hg).
  apply Run_bind_Ok in Hg as (outline_mask & Hc & Hg).
  apply Run_bind_Ok in Hg as (mask & Ha & Hg).
  unfold create_outline_mask in Hc.
  apply Run_bind_Ok in Hc as (blurred & Hb & [= <-]).
  unfold antialias_outline_edge in Ha.
  apply Run_bind_Ok in Ha as (edges & He & Hor).
  unfold place_layers in Hg. apply Run_bind_Ok in Hg as (filled & Hf & Hcp).
  by exists blurred, edges, mask, filled, composite.
Qed.

Lemma GetFrame_locals_mask o frame_image frame_number
    (blurred blurred_edge_mask mask : Mat uchar) :
  Mat_empty (bits frame_image) = false →
  blurred_mask (plane b3 (bits frame_image)) (sigmaValue o frame_number)
    = Ok blurred →
  GaussianBlur (Canny (threshold blurred 0 255) 250 255) (0, 0) (8 # 10) (8 # 10)
    = Ok blurred_edge_mask →
  bitwise_or (threshold blurred 0 255) blurred_edge_mask = Ok mask →
  create_outline_mask (plane b3 (bits frame_image)) (sigmaValue o frame_number)
    = Ok (threshold blurred 0 255)
  ∧ antialias_outline_edge (threshold blurred 0 255) = Ok mask
  ∧ compositing_mask o frame_image frame_number = Ok mask.
Proof.
  intros Hne Hb He Hor.
  assert (create_outline_mask (plane b3 (bits frame_image))
            (sigmaValue o frame_number) = Ok (threshold blurred 0 255)) as Hc
    by (unfold create_outline_mask; by rewrite Hb).
  assert (antialias_outline_edge (threshold blurred 0 255) = Ok mask) as Ha
    by (unfold antialias_outline_edge; rewrite He; cbn; exact Hor).
  split; [done|]. split; [done|].
  unfold compositing_mask, QImageToBGRACvMat.
  rewrite extract_alpha_mask_eq, Hne. cbn. rewrite Hc. cbn. exact Ha.
Qed.

(** The pixels of the frame that [GetFrame] returns. *)
Lemma GetFrame_pixels o frame_image frame_number (out : QImage) :
  GetFrame o frame_image frame_number = Ok out →
  Mat_wf (bits frame_image) →
  ∃ mask composite,
    compositing_mask o frame_image frame_number = Ok mask
    ∧ final_image o frame_image frame_number = Ok composite
    ∧ out = BGRACvMatToQImage composite
    ∧ same_shape mask (bits frame_image)
    ∧ same_shape composite (bits frame_image)
    ∧ ∀ i px m, data (bits frame_image) !! i = Some px → data mask !! i = Some m →
        data composite !! i =
          Some (if b3 px =? 0
                then (if m =? 0 then transparent
                      else Scalar_to_Vec4b (solid_color o frame_number))
                else px).
Proof.
  rewrite GetFrame_stages. intros Hg Hwf.
  apply Run_fmap_Ok in Hg as (x & Hg & ->).
  destruct (final_image_mask _ _ _ _ Hg) as [mask Hm].
  destruct (final_image_pixels _ _ _ _ Hm Hwf) as (c' & Hc' & Hcs & Hpx).
  assert (c' = x) as -> by congruence.
  exists mask, x.
  destruct (compositing_mask_shape _ _ _ _ Hm) as [_ Hms].
  by repeat (split; [done|]).
Qed.

(** Where the source alpha is non-zero at every pixel, the composite is the
    source image itself: the outline is wholly covered. *)
Lemma final_image_covered o frame_image frame_number (composite : Mat Vec4b) :
  final_image o frame_image frame_number = Ok composite →
  Mat_wf (bits frame_image) →
  Forall (λ px, b3 px ≠ 0) (data (bits frame_image)) →
  composite = bits frame_image.
Proof.
  intros Hc Hwf Hall.
  destruct (final_image_mask _ _ _ _ Hc) as [mask Hm].
  destruct (final_image_pixels _ _ _ _ Hm Hwf) as (c' & Hc' & Hcs & Hpx).
  assert (c' = composite) as -> by congruence.
  destruct (compositing_mask_shape _ _ _ _ Hm) as [_ (_ & _ & Hml)].
  destruct Hcs as (Hr & Hcl & Hl).
  destruct composite as [r c d], (bits frame_image) as [r' c' d'] eqn:Hb.
  simpl in *. subst r' c'. f_equal.
  apply list_eq. intros i.
  destruct (d' !! i) as [px|] eqn:Hi.
  - assert (is_Some (data mask !! i)) as [m Hmi].
    { apply lookup_lt_is_Some. rewrite Hml. by eapply lookup_lt_Some. }
    rewrite (Hpx i px m Hi Hmi).
    rewrite Forall_lookup in Hall. specialize (Hall i px Hi).
    apply Z.eqb_neq in Hall. by rewrite Hall.
  - apply lookup_ge_None. apply lookup_ge_None in Hi. lia.
Qed.
End Completes.

(** ** The format conversion keeps the alpha byte *)

Lemma byte_high_bits (b n : Z) : 0 <= b < 256 → 8 <= n → Z.testbit b n = false.
Proof.
  intros Hb Hn. destruct (Z.eq_dec b 0) as [->|Hne]; [apply Z.bits_0|].
  apply Z.bits_above_log2; [lia|].
  assert (Z.log2 b < 8); [|lia]. apply Z.log2_lt_pow2; lia.
Qed.

Lemma testbit_ones_shift (k s n : Z) :
  0 <= k → 0 <= s → 0 <= n →
  Z.testbit (Z.shiftl (Z.ones k) s) n = (s <=? n) && (n <? s + k).
Proof.
  intros Hk Hs Hn. rewrite Z.shiftl_spec by lia.
  destruct (Z.leb_spec s n), (Z.ltb_spec n (s + k)); simpl.
  - rewrite Z.ones_spec_low; [done|lia].
  - rewrite Z.ones_spec_high; [done|lia].
  - apply Z.testbit_neg_r; lia.
  - apply Z.testbit_neg_r; lia.
Qed.


(** * The claims about the pixel pipeline *)

Lemma threshold_binary (blurred : Mat uchar) :
  (∀ i v, data blurred !! i = Some v →
     data (threshold blurred 0 255) !! i = Some (if 0 <? v then 255 else 0))
  ∧ Forall (λ v, v = 0 ∨ v = 255) (data (threshold blurred 0 255)).
Proof.
  split.
  - intros i v Hi. simpl. by rewrite list_lookup_fmap, Hi.
  - simpl. apply Forall_fmap, Forall_true. intros v. unfold threshold_px. simpl.
    destruct (0 <? v); auto.
Qed.

Section PipelineClaims.
Context {filters : Imgproc}.
Context {Keyframe EffectBase : Type}.
Context {curves : KeyframeOps Keyframe} {parent_ops : EffectBaseOps EffectBase}.
Implicit Types (o : Outline Keyframe EffectBase) (frame_image : QImage).

(** C2: with sigma = 0 the blur of line 73 is not an identity pass. For
    every image that is neither empty nor a single pixel,
    [cv::GaussianBlur] is called with [Size(0, 0)] and sigma 0, cannot
    derive a kernel, and [GetFrame] ends with that OpenCV error instead of
    producing the thresholded alpha mask. *)
Theorem sigma_zero_is_rejected o frame_image frame_number :
  sigmaValue o frame_number = 0 →
  Mat_empty (bits frame_image) = false →
  rows (bits frame_image) ≠ 1%nat ∨ cols (bits frame_image) ≠ 1%nat →
  create_outline_mask (plane b3 (bits frame_image)) (sigmaValue o frame_number)
    = Throw (cv_Exception
        "ksize.width > 0 && ksize.width % 2 == 1 && ksize.height > 0 && ksize.height % 2 == 1")
  ∧ GetFrame o frame_image frame_number
    = Throw (cv_Exception
        "ksize.width > 0 && ksize.width % 2 == 1 && ksize.height > 0 && ksize.height % 2 == 1").
Proof.
  intros Hs Hne Hdim.
  assert (GaussianBlur (plane b3 (bits frame_image)) (0, 0)
            (inject_Z (sigmaValue o frame_number))
            (inject_Z (sigmaValue o frame_number))
          = Throw (cv_Exception
              "ksize.width > 0 && ksize.width % 2 == 1 && ksize.height > 0 && ksize.height % 2 == 1"))
    as Hb.
  { apply GaussianBlur_rejects.
    - by rewrite (same_shape_empty _ _ (plane_shape b3 _)).
    - rewrite Hs. apply Qle_refl.
    - done. }
  split.
  - unfold create_outline_mask, blurred_mask. by rewrite Hb.
  - rewrite GetFrame_stages. unfold final_image, QImageToBGRACvMat.
    rewrite extract_alpha_mask_eq, Hne. cbn.
    unfold create_outline_mask, blurred_mask. by rewrite Hb.
Qed.

(** C3: an image of zero width or zero height is not a no-op. [cv::split]
    releases the vector of planes when its source is empty, so line 65
    reads [channels[3]] past the end of an empty vector: the run of
    [GetFrame] is undefined there, before any pixel is written. Nor would
    the blur of line 73 take the empty alpha plane: [cv::GaussianBlur]
    asserts a source that is not empty. *)
Theorem empty_image_is_rejected o frame_image frame_number :
  Mat_empty (bits frame_image) = true →
  split (QImageToBGRACvMat frame_image) = []
  ∧ GetFrame o frame_image frame_number = Undefined (out_of_bounds 3 0)
  ∧ blurred_mask (plane b3 (QImageToBGRACvMat frame_image))
      (sigmaValue o frame_number)
    = Throw (cv_Exception "!_src.empty()").
Proof.
  intros He. split; [|split].
  - unfold split, QImageToBGRACvMat. by rewrite He.
  - rewrite GetFrame_stages. unfold final_image, QImageToBGRACvMat.
    by rewrite extract_alpha_mask_eq, He.
  - unfold blurred_mask, QImageToBGRACvMat. apply GaussianBlur_empty.
    by rewrite (same_shape_empty _ _ (plane_shape b3 _)).
Qed.

(** C4: in every run of [GetFrame] that returns a frame, the outline mask
    of line 74 is the blurred alpha mask of line 73 through
    [threshold(.., 0, 255, THRESH_BINARY)]: it has the extent of the blurred
    mask, each of its pixels is 255 where the blurred value is greater than
    0 and 0 elsewhere, so it holds no value other than 0 and 255; and it is
    this binary mask that the edge refinement and the two masked writes
    build the returned frame from. *)
Theorem outline_mask_is_binary o frame_image frame_number (out : QImage) :
  GetFrame o frame_image frame_number = Ok out →
  ∃ blurred outline_mask mask composite,
    blurred_mask (plane b3 (bits frame_image)) (sigmaValue o frame_number)
      = Ok blurred
    ∧ create_outline_mask (plane b3 (bits frame_image)) (sigmaValue o frame_number)
      = Ok outline_mask
    ∧ same_shape outline_mask blurred
    ∧ (∀ i v, data blurred !! i = Some v →
         data outline_mask !! i = Some (if 0 <? v then 255 else 0))
    ∧ Forall (λ v, v = 0 ∨ v = 255) (data outline_mask)
    ∧ antialias_outline_edge outline_mask = Ok mask
    ∧ place_layers (bits frame_image) (solid_color o frame_number) mask
        (plane b3 (bits frame_image)) = Ok composite
    ∧ out = BGRACvMatToQImage composite.
Proof.
  intros Hg.
  destruct (GetFrame_locals _ _ _ _ Hg)
    as (blurred & edges & mask & filled & composite
        & Hne & Hb & He & Hor & Hf & Hc & ->).
  destruct (GetFrame_locals_mask _ _ _ _ _ _ Hne Hb He Hor) as (Hcm & Ha & _).
  destruct (threshold_binary blurred) as [Hpx Hall].
  exists blurred, (threshold blurred 0 255), mask, composite.
  split; [done|]. split; [done|]. split; [apply threshold_shape|].
  split; [done|]. split; [done|]. split; [done|]. split; [|done].
  unfold place_layers. rewrite Hf. cbn. exact Hc.
Qed.

(** C10: in every run of [GetFrame] that returns a frame, the masked write
    of line 95 is all-or-nothing. Through the compositing mask, a pixel of
    the canvas is the whole fill colour (blue, green, red and the resolved
    opacity, each saturated to 8 bits and otherwise unscaled) where the
    mask is non-zero, whatever its value, and is left transparent where the
    mask is zero; line 96 then puts the source over this canvas, and outside
    the alpha footprint the returned pixel is the conversion of that canvas
    pixel, the same for every non-zero mask value. *)
Theorem fill_is_all_or_nothing o frame_image frame_number (out : QImage) :
  GetFrame o frame_image frame_number = Ok out →
  Mat_wf (bits frame_image) →
  ∃ mask filled composite,
    compositing_mask o frame_image frame_number = Ok mask
    ∧ place_outline (bits frame_image) (solid_color o frame_number) mask
      = Ok filled
    ∧ copyTo (bits frame_image) filled (plane b3 (bits frame_image))
      = Ok composite
    ∧ out = BGRACvMatToQImage composite
    ∧ ∀ i m, data mask !! i = Some m →
        data filled !! i =
          Some (if m =? 0 then transparent
                else mkVec4b (saturate_cast_uchar (blueValue o frame_number))
                             (saturate_cast_uchar (greenValue o frame_number))
                             (saturate_cast_uchar (redValue o frame_number))
                             (saturate_cast_uchar (alphaValue o frame_number)))
        ∧ ∀ px, data (bits frame_image) !! i = Some px → b3 px = 0 →
            data (bits out) !! i =
              Some (if m =? 0 then transparent
                    else convert_ARGB32_to_RGBA8888_PM
                           (mkVec4b
                              (saturate_cast_uchar (blueValue o frame_number))
                              (saturate_cast_uchar (greenValue o frame_number))
                              (saturate_cast_uchar (redValue o frame_number))
                              (saturate_cast_uchar (alphaValue o frame_number)))).
Proof.
  intros Hg Hwf.
  destruct (GetFrame_locals _ _ _ _ Hg)
    as (blurred & edges & mask & filled & composite
        & Hne & Hb & He & Hor & Hf & Hc & ->).
  destruct (GetFrame_locals_mask _ _ _ _ _ _ Hne Hb He Hor) as (_ & _ & Hm).
  destruct (compositing_mask_shape _ _ _ _ Hm) as [_ Hms].
  assert (Mat_empty mask = false) as Hme
    by (by rewrite (same_shape_empty _ _ Hms)).
  destruct (place_outline_pixels (bits frame_image) (solid_color o frame_number)
              mask Hme Hms Hwf) as (filled' & Hf' & _ & Hfill).
  assert (filled' = filled) as -> by congruence.
  destruct (place_layers_pixels (bits frame_image) (solid_color o frame_number)
              mask Hne Hms Hwf) as (composite' & Hc' & _ & Hpx).
  assert (composite' = composite) as ->.
  { revert Hc'. unfold place_layers. rewrite Hf. cbn. congruence. }
  exists mask, filled, composite.
  split; [done|]. split; [done|]. split; [done|]. split; [done|].
  intros i m Hi. split; [by rewrite (Hfill i m Hi)|].
  intros px Hp Ha. pose proof (Hpx i px m Hp Hi) as Hci. rewrite Ha in Hci.
  simpl in Hci. simpl. rewrite list_lookup_fmap, Hci. simpl.
  by destruct (m =? 0).
Qed.
End PipelineClaims.

(** * The claims about loading and storing *)

Section JsonClaims.
Context {filters : Imgproc} {reader : JsonReader}.
Context {Keyframe EffectBase : Type}.
Context {curves : KeyframeOps Keyframe} {parent_ops : EffectBaseOps EffectBase}.
Implicit Types (o : Outline Keyframe EffectBase) (k : Keyframe).
Implicit Types (root : Value) (members : gmap string Value).

(** ** Methods *)

Lemma bind_Ok {A B} (m : Method Keyframe EffectBase A)
    (f : A → Method Keyframe EffectBase B) o a o' :
  m o = (Ok a, o') → (m ≫= f) o = f a o'.
Proof. intros Hm. unfold mbind, Method_mbind, bind. by rewrite Hm. Qed.

Lemma bind_Throw {A B} (m : Method Keyframe EffectBase A)
    (f : A → Method Keyframe EffectBase B) o e o' :
  m o = (Throw e, o') → (m ≫= f) o = (Throw e, o').
Proof. intros Hm. unfold mbind, Method_mbind, bind. by rewrite Hm. Qed.

Lemma preserves_bind {A B F} (get : Outline Keyframe EffectBase → F)
    (m : Method Keyframe EffectBase A) (f : A → Method Keyframe EffectBase B) :
  preserves get m → (∀ a, preserves get (f a)) → preserves get (m ≫= f).
Proof.
  intros Hm Hf o. unfold mbind, Method_mbind, bind.
  specialize (Hm o). destruct (m o) as [[a|e] o']; simpl in *; [|done].
  by rewrite Hf.
Qed.

Lemma preserves_eval {A F} (get : Outline Keyframe EffectBase → F) (e : Exc A) :
  preserves get (eval e).
Proof. done. Qed.

Lemma preserves_ret {A F} (get : Outline Keyframe EffectBase → F) (a : A) :
  preserves get (mret a : Method Keyframe EffectBase A).
Proof. done. Qed.

Lemma preserves_on_field {F G} (get : Outline Keyframe EffectBase → F)
    (get' : Outline Keyframe EffectBase → G) set' (m : G → Exc unit * G) :
  (∀ g o, get (set' g o) = get o) → preserves get (on_field get' set' m).
Proof.
  intros Hset o. unfold on_field. destruct (m (get' o)) as [r g]. simpl.
  apply Hset.
Qed.

(** ** [load_curve] *)

Lemma load_curve_absent root key get set o :
  Value_get root key = Ok nullValue →
  load_curve root key get set o = (Ok (), o).
Proof. intros Hv. unfold load_curve. by rewrite (bind_Ok _ _ o nullValue o) by (by unfold eval; rewrite Hv). Qed.

Lemma load_curve_present root key get set o v :
  Value_get root key = Ok v → isNull v = false →
  load_curve root key get set o
    = ((Keyframe_SetJsonValue v (get o)).1, set (Keyframe_SetJsonValue v (get o)).2 o).
Proof.
  intros Hv Hn. unfold load_curve.
  rewrite (bind_Ok _ _ o v o) by (by unfold eval; rewrite Hv).
  rewrite Hn.
  rewrite (bind_Ok _ _ o v o) by (by unfold eval; rewrite Hv).
  unfold on_field. by destruct (Keyframe_SetJsonValue v (get o)).
Qed.

Lemma load_curve_preserves {F} (get' : Outline Keyframe EffectBase → F)
    root key get set :
  (∀ k o, get' (set k o) = get' o) → preserves get' (load_curve root key get set).
Proof.
  intros Hset. unfold load_curve.
  apply preserves_bind; [apply preserves_eval|]. intros v.
  destruct (isNull v); [apply preserves_ret|].
  apply preserves_bind; [apply preserves_eval|]. intros v'.
  by apply preserves_on_field.
Qed.

Lemma load_curve_absent_preserves {F} (get' : Outline Keyframe EffectBase → F)
    root key get set :
  Value_get root key = Ok nullValue → preserves get' (load_curve root key get set).
Proof. intros Hv o. by rewrite load_curve_absent. Qed.

(** ** The document that [JsonValue] builds *)

Lemma JsonValue_width o : Value_get (JsonValue o) "width" = Ok (Keyframe_JsonValue (width o)).
Proof. unfold JsonValue, Value_get. by simplify_map_eq. Qed.
Lemma JsonValue_red o : Value_get (JsonValue o) "red" = Ok (Keyframe_JsonValue (red o)).
Proof. unfold JsonValue, Value_get. by simplify_map_eq. Qed.
Lemma JsonValue_green o : Value_get (JsonValue o) "green" = Ok (Keyframe_JsonValue (green o)).
Proof. unfold JsonValue, Value_get. by simplify_map_eq. Qed.
Lemma JsonValue_blue o : Value_get (JsonValue o) "blue" = Ok (Keyframe_JsonValue (blue o)).
Proof. unfold JsonValue, Value_get. by simplify_map_eq. Qed.
Lemma JsonValue_alpha o : Value_get (JsonValue o) "alpha" = Ok (Keyframe_JsonValue (alpha o)).
Proof. unfold JsonValue, Value_get. by simplify_map_eq. Qed.
Lemma JsonValue_type o : Value_get (JsonValue o) "type" = Ok (stringValue (class_name (info o))).
Proof. unfold JsonValue, Value_get. by simplify_map_eq. Qed.

(** [GetFrame] looks at the instance through the five resolved values
    only. *)
Lemma GetFrame_ext o1 o2 frame_image frame_number :
  GetValue (width o1) frame_number = GetValue (width o2) frame_number →
  GetValue (red o1) frame_number = GetValue (red o2) frame_number →
  GetValue (green o1) frame_number = GetValue (green o2) frame_number →
  GetValue (blue o1) frame_number = GetValue (blue o2) frame_number →
  GetValue (alpha o1) frame_number = GetValue (alpha o2) frame_number →
  GetFrame o1 frame_image frame_number = GetFrame o2 frame_image frame_number.
Proof. unfold GetFrame. by intros -> -> -> -> ->. Qed.
End JsonClaims.

Section Serialization.
Context {filters : Imgproc} {reader : JsonReader}.
Context {Keyframe EffectBase : Type}.
Context {curves : KeyframeOps Keyframe} {parent_ops : EffectBaseOps EffectBase}.
Implicit Types (o fresh : Outline Keyframe EffectBase) (k : Keyframe).
Implicit Types (root : Value) (members : gmap string Value).

(** C6: the document of [JsonValue], loaded with [SetJsonValue] into
    another instance, gives an instance whose [GetFrame] agrees with the
    first one's on every image and frame index, provided the parent
    accepts the document and each of the five curves loads back from its
    own JSON form. *)
Theorem roundtrip_same_frames o fresh frame_image frame_number :
  (EffectBase_SetJsonValue (JsonValue o) (parent fresh)).1 = Ok () →
  loads_back (width o) (width fresh) →
  loads_back (red o) (red fresh) →
  loads_back (green o) (green fresh) →
  loads_back (blue o) (blue fresh) →
  loads_back (alpha o) (alpha fresh) →
  ∃ loaded,
    SetJsonValue (JsonValue o) fresh = (Ok (), loaded)
    ∧ GetFrame loaded frame_image frame_number
      = GetFrame o frame_image frame_number.
Proof.
  intros Hp (Hnw & kw & Hw & Hvw) (Hnr & kr & Hr & Hvr) (Hng & kg & Hg & Hvg)
    (Hnb & kb & Hb & Hvb) (Hna & ka & Ha & Hva).
  destruct (EffectBase_SetJsonValue (JsonValue o) (parent fresh)) as [rp p'] eqn:Hpe.
  simpl in Hp. subst rp.
  exists (mkOutline p' kw kr kg kb ka). split.
  - unfold SetJsonValue.
    erewrite bind_Ok; [|by unfold on_field; rewrite Hpe].
    erewrite bind_Ok;
      [|by rewrite (load_curve_present _ _ _ _ _ _ (JsonValue_width o) Hnw);
           simpl; rewrite Hw].
    erewrite bind_Ok;
      [|by rewrite (load_curve_present _ _ _ _ _ _ (JsonValue_red o) Hnr);
           simpl; rewrite Hr].
    erewrite bind_Ok;
      [|by rewrite (load_curve_present _ _ _ _ _ _ (JsonValue_green o) Hng);
           simpl; rewrite Hg].
    erewrite bind_Ok;
      [|by rewrite (load_curve_present _ _ _ _ _ _ (JsonValue_blue o) Hnb);
           simpl; rewrite Hb].
    rewrite (load_curve_present _ _ _ _ _ _ (JsonValue_alpha o) Hna).
    simpl. by rewrite Ha.
  - apply GetFrame_ext; simpl; auto.
Qed.

(** C7: when the document does not parse, [SetJson] throws [InvalidJSON]
    with its message and leaves the instance, the five curves and the
    parent state alike, exactly as it was. *)
Theorem SetJson_unparsable value e o :
  stringToJson value = Throw e →
  SetJson value o
    = (Throw (InvalidJSON "JSON is invalid (missing keys or invalid data types)"), o).
Proof.
  intros Hp. unfold SetJson, try_catch_rethrow.
  erewrite bind_Throw; [done|]. unfold eval. by rewrite Hp.
Qed.

(** X16. Whatever [SetJson] throws, a failed parse and a failed load alike,
    is [InvalidJSON] with the one message of line 155. *)
Lemma SetJson_throws_InvalidJSON value o e :
  (SetJson value o).1 = Throw e →
  e = InvalidJSON "JSON is invalid (missing keys or invalid data types)".
Proof.
  unfold SetJson, try_catch_rethrow.
  match goal with |- context [match ?b with _ => _ end] =>
    destruct b as [[[]|e'] o'] end; simpl; [done|]. by intros [= <-].
Qed.

Lemma load_curve_object members key get set o :
  (∀ o, set (get o) o = o) →
  loads_cleanly members key (get o) →
  ∃ k', load_curve (objectValue members) key get set o = (Ok (), set k' o)
        ∧ curve_after members key (get o) k'.
Proof.
  unfold loads_cleanly, curve_after. intros Hlens Hl.
  destruct (members !! key) as [v|] eqn:Hk.
  - destruct (isNull v) eqn:Hn.
    + exists (get o). split; [|done].
      destruct v; try discriminate.
      rewrite load_curve_absent; [|by simpl; rewrite Hk].
      by rewrite Hlens.
    + eexists. split; [|done].
      rewrite (load_curve_present _ _ _ _ _ v); [|by simpl; rewrite Hk|done].
      by rewrite Hl.
  - exists (get o). split; [|done].
    rewrite load_curve_absent; [|by simpl; rewrite Hk]. by rewrite Hlens.
Qed.
End Serialization.

Section PartialLoad.
Context {reader : JsonReader}.
Context {Keyframe EffectBase : Type}.
Context {curves : KeyframeOps Keyframe} {parent_ops : EffectBaseOps EffectBase}.
Implicit Types (o : Outline Keyframe EffectBase) (k : Keyframe).
Implicit Types (root : Value) (members : gmap string Value).

(** C8: a document that is an object loads without error when the parent
    and each member present among the five keys load without error; a key
    that is absent is no error, its curve is left as it was, and every
    present key is applied to its curve. *)
Theorem partial_documents_load members o :
  (EffectBase_SetJsonValue (objectValue members) (parent o)).1 = Ok () →
  loads_cleanly members "width" (width o) →
  loads_cleanly members "red" (red o) →
  loads_cleanly members "green" (green o) →
  loads_cleanly members "blue" (blue o) →
  loads_cleanly members "alpha" (alpha o) →
  ∃ o',
    SetJsonValue (objectValue members) o = (Ok (), o')
    ∧ curve_after members "width" (width o) (width o')
    ∧ curve_after members "red" (red o) (red o')
    ∧ curve_after members "green" (green o) (green o')
    ∧ curve_after members "blue" (blue o) (blue o')
    ∧ curve_after members "alpha" (alpha o) (alpha o').
Proof.
  intros Hp Hw Hr Hg Hb Ha.
  destruct (EffectBase_SetJsonValue (objectValue members) (parent o))
    as [rp p'] eqn:Hpe.
  simpl in Hp. subst rp. unfold SetJsonValue.
  erewrite bind_Ok; [|by unfold on_field; rewrite Hpe].
  set (o0 := set_parent p' o).
  destruct (load_curve_object members "width" width set_width o0)
    as (kw & Hlw & Hcw); [by intros [] | done |].
  erewrite bind_Ok; [|exact Hlw].
  set (o1 := set_width kw o0).
  destruct (load_curve_object members "red" red set_red o1)
    as (kr & Hlr & Hcr); [by intros [] | done |].
  erewrite bind_Ok; [|exact Hlr].
  set (o2 := set_red kr o1).
  destruct (load_curve_object members "green" green set_green o2)
    as (kg & Hlg & Hcg); [by intros [] | done |].
  erewrite bind_Ok; [|exact Hlg].
  set (o3 := set_green kg o2).
  destruct (load_curve_object members "blue" blue set_blue o3)
    as (kb & Hlb & Hcb); [by intros [] | done |].
  erewrite bind_Ok; [|exact Hlb].
  set (o4 := set_blue kb o3).
  destruct (load_curve_object members "alpha" alpha set_alpha o4)
    as (ka & Hla & Hca); [by intros [] | done |].
  exists (set_alpha ka o4). by repeat (split; [done|]).
Qed.

(** X15. A key that is absent (or null) leaves its curve alone whatever
    else happens during the load, a throw included. *)
Lemma absent_keys_untouched root o :
  (Value_get root "width" = Ok nullValue → width (SetJsonValue root o).2 = width o)
  ∧ (Value_get root "red" = Ok nullValue → red (SetJsonValue root o).2 = red o)
  ∧ (Value_get root "green" = Ok nullValue → green (SetJsonValue root o).2 = green o)
  ∧ (Value_get root "blue" = Ok nullValue → blue (SetJsonValue root o).2 = blue o)
  ∧ (Value_get root "alpha" = Ok nullValue → alpha (SetJsonValue root o).2 = alpha o).
Proof.
  repeat split; intros Hk; revert o; unfold SetJsonValue;
    repeat (apply preserves_bind; [|intros _]);
    first [ by apply preserves_on_field
          | by apply load_curve_absent_preserves
          | by apply load_curve_preserves ].
Qed.
End PartialLoad.

(** * The claim about the resolved values *)

Lemma quot_truncates (d : Q) : truncation_of d (Z.quot (Qnum d) (Zpos (Qden d))).
Proof.
  destruct d as [n p]. unfold truncation_of, Qle, Qlt. simpl.
  pose proof (Z.quot_rem' n (Z.pos p)) as Hqr.
  destruct (Z_le_gt_dec 0 n) as [Hn|Hn].
  - left. pose proof (Z.rem_bound_pos_pos n (Z.pos p) ltac:(lia) Hn). nia.
  - right. pose proof (Z.rem_bound_pos_neg n (Z.pos p) ltac:(lia) ltac:(lia)). nia.
Qed.

Lemma truncation_fits (d : Q) (v : Z) :
  int_representable d → truncation_of d v → INT_MIN <= v <= INT_MAX.
Proof.
  intros [Hlo Hhi] Ht.
  assert (inject_Z (v + 1) == inject_Z v + 1)%Q as Hp
    by (rewrite inject_Z_plus; reflexivity).
  assert (inject_Z (v - 1) == inject_Z v - 1)%Q as Hm
    by (unfold Z.sub; rewrite inject_Z_plus; reflexivity).
  destruct Ht as [(H0 & Hle & Hlt) | (H0 & Hlt & Hle)].
  - rewrite Hp in Hlt.
    assert (inject_Z (-1) < inject_Z v)%Q as Hv
      by (change (inject_Z (-1)) with (-1)%Q; lra).
    assert (inject_Z v < inject_Z (INT_MAX + 1))%Q as Hv'
      by (rewrite inject_Z_plus; change (inject_Z 1) with 1%Q; lra).
    rewrite <- Zlt_Qlt in Hv, Hv'. unfold INT_MIN. lia.
  - rewrite Hm in Hlt.
    assert (inject_Z v < inject_Z 1)%Q as Hv
      by (change (inject_Z 1) with 1%Q; lra).
    assert (inject_Z (INT_MIN - 1) < inject_Z v)%Q as Hv'
      by (unfold Z.sub; rewrite inject_Z_plus, inject_Z_opp;
          change (inject_Z 1) with 1%Q; lra).
    rewrite <- Zlt_Qlt in Hv, Hv'. unfold INT_MAX. lia.
Qed.

(** Within the range of [int], the conversion discards the fraction. *)
Lemma double_to_int_truncates (d : Q) :
  int_representable d → truncation_of d (double_to_int d).
Proof.
  intros Hd. unfold double_to_int.
  pose proof (quot_truncates d) as Ht.
  by rewrite int_or_indefinite_fits by (by eapply truncation_fits).
Qed.

Section ResolvedValues.
Context {filters : Imgproc}.
Context {Keyframe EffectBase : Type}.
Context {curves : KeyframeOps Keyframe} {parent_ops : EffectBaseOps EffectBase}.
Implicit Types (o : Outline Keyframe EffectBase).

(** C9: the integers that the pipeline uses are not the resolved scalars
    rounded to the nearest integer. Whenever the resolved values are within
    the range of [int], sigma is the quotient of the resolved width by 3
    with its fraction discarded, and each of red, green, blue and alpha is
    its resolved value with the fraction discarded (lines 53-57); the frame
    that [GetFrame] computes is the one computed from these integers. *)
Theorem resolved_values_are_truncated o frame_number :
  int_representable (GetValue (width o) frame_number / 3) →
  int_representable (GetValue (red o) frame_number) →
  int_representable (GetValue (green o) frame_number) →
  int_representable (GetValue (blue o) frame_number) →
  int_representable (GetValue (alpha o) frame_number) →
  truncation_of (GetValue (width o) frame_number / 3) (sigmaValue o frame_number)
  ∧ truncation_of (GetValue (red o) frame_number) (redValue o frame_number)
  ∧ truncation_of (GetValue (green o) frame_number) (greenValue o frame_number)
  ∧ truncation_of (GetValue (blue o) frame_number) (blueValue o frame_number)
  ∧ truncation_of (GetValue (alpha o) frame_number) (alphaValue o frame_number)
  ∧ ∀ frame_image,
      GetFrame o frame_image frame_number
      = BGRACvMatToQImage <$>
          (alpha_mask ← extract_alpha_mask (QImageToBGRACvMat frame_image);
           outline_mask ← create_outline_mask alpha_mask (sigmaValue o frame_number);
           outline_mask ← antialias_outline_edge outline_mask;
           place_layers (QImageToBGRACvMat frame_image)
             (blueValue o frame_number, greenValue o frame_number,
              redValue o frame_number, alphaValue o frame_number)
             outline_mask alpha_mask).
Proof.
  intros Hw Hr Hg Hb Ha.
  repeat (split; [by apply double_to_int_truncates|]).
  intros frame_image. apply GetFrame_stages.
Qed.
End ResolvedValues.

(** * The statements at concrete inputs *)

Import Examples.

(** C1: the returned frame does not keep the pixels of the alpha
    footprint, whatever the two filters compute. On the strip, the composite
    of line 96 holds the half-covered pixel as it was in the input, and the
    frame that [GetFrame] returns holds it premultiplied once more and with
    its first and third bytes exchanged; on the square, where alpha is 255
    everywhere, the composite is the input buffer and the returned buffer
    (of the input's own format) is not. *)
Theorem footprint_pixel_is_converted :
  (∀ filters : Imgproc,
     ∃ composite out,
       final_image (filters := filters) blank strip 1 = Ok composite
       ∧ GetFrame (filters := filters) blank strip 1 = Ok out
       ∧ data (bits strip) !! 1%nat = Some soft_edge
       ∧ b3 soft_edge ≠ 0
       ∧ data composite !! 1%nat = Some soft_edge
       ∧ data (bits out) !! 1%nat = Some (mkVec4b 0 0 50 128)
       ∧ data (bits out) !! 1%nat ≠ data (bits strip) !! 1%nat)
  ∧ (∀ filters : Imgproc,
       ∃ out,
         final_image (filters := filters) blank square 1 = Ok (bits square)
         ∧ GetFrame (filters := filters) blank square 1 = Ok out
         ∧ Forall (λ px, b3 px = 255) (data (bits square))
         ∧ format out = format square
         ∧ data (bits out) !! 0%nat = Some (mkVec4b 0 0 255 255)
         ∧ bits out ≠ bits square).
Proof.
  split; intros filters.
  - destruct (GetFrame_completes (filters := filters) blank strip 1)
      as [out Hout]; [reflexivity | reflexivity | reflexivity | by vm_compute |].
    destruct (GetFrame_pixels _ _ _ _ Hout eq_refl)
      as (mask & composite & Hm & Hc & -> & Hms & Hcs & Hpx).
    exists composite, (BGRACvMatToQImage composite).
    split; [done|]. split; [done|].
    assert (is_Some (data mask !! 1%nat)) as [m Hmi].
    { apply lookup_lt_is_Some. destruct Hms as (_ & _ & ->). simpl. lia. }
    pose proof (Hpx 1%nat soft_edge m eq_refl Hmi) as Hci. simpl in Hci.
    assert (data (bits (BGRACvMatToQImage composite)) !! 1%nat
            = Some (mkVec4b 0 0 50 128)) as Ho.
    { simpl. by rewrite list_lookup_fmap, Hci. }
    split; [done|]. split; [done|]. split; [done|]. split; [done|].
    by rewrite Ho.
  - destruct (GetFrame_completes (filters := filters) blank square 1)
      as [out Hout]; [reflexivity | reflexivity | reflexivity | by vm_compute |].
    exists out.
    destruct (GetFrame_pixels _ _ _ _ Hout eq_refl)
      as (mask & composite & Hm & Hc & -> & Hms & Hcs & Hpx).
    assert (composite = bits square) as ->.
    { apply (final_image_covered (filters := filters) blank square 1);
        [done | reflexivity | by repeat constructor]. }
    split; [done|]. split; [done|].
    split; [by repeat constructor|]. split; [done|]. split; [done|].
    discriminate.
Qed.

(** [sigma_zero_is_rejected] on the 2x2 square with width 0. *)
Lemma sigma_zero_is_rejected_witness :
  sigmaValue hairline 1 = 0
  ∧ Mat_empty (bits square) = false
  ∧ (rows (bits square) ≠ 1%nat ∨ cols (bits square) ≠ 1%nat)
  ∧ GetFrame hairline square 1
    = Throw (cv_Exception
        "ksize.width > 0 && ksize.width % 2 == 1 && ksize.height > 0 && ksize.height % 2 == 1").
Proof.
  split; [reflexivity|]. split; [reflexivity|]. split; [left; discriminate|].
  apply (sigma_zero_is_rejected hairline square 1);
    [reflexivity | reflexivity | left; discriminate].
Defined.

(** [empty_image_is_rejected] on the image without pixels. *)
Lemma empty_image_is_rejected_witness :
  Mat_empty (bits null_image) = true
  ∧ split (QImageToBGRACvMat null_image) = []
  ∧ GetFrame blank null_image 1 = Undefined (out_of_bounds 3 0).
Proof.
  split; [reflexivity|].
  destruct (empty_image_is_rejected blank null_image 1) as (Hs & Hg & _);
    [reflexivity|].
  split; [exact Hs | exact Hg].
Defined.

(** [outline_mask_is_binary] on the row, with the soft filters: the
    blurred values 36 and 0 become 255 and 0. *)
Lemma outline_mask_is_binary_witness :
  ∃ out blurred outline_mask,
    GetFrame (filters := soft_imgproc) green_outline row 1 = Ok out
    ∧ blurred_mask (filters := soft_imgproc) (plane b3 (bits row))
        (sigmaValue green_outline 1) = Ok blurred
    ∧ data blurred = [36; 36; 36; 36; 0; 0; 0; 0; 0]
    ∧ create_outline_mask (filters := soft_imgproc) (plane b3 (bits row))
        (sigmaValue green_outline 1) = Ok outline_mask
    ∧ data outline_mask = [255; 255; 255; 255; 0; 0; 0; 0; 0]
    ∧ Forall (λ v, v = 0 ∨ v = 255) (data outline_mask).
Proof.
  assert (∃ out, GetFrame (filters := soft_imgproc) green_outline row 1 = Ok out)
    as [out Hout] by (eexists; vm_compute; reflexivity).
  destruct (outline_mask_is_binary (filters := soft_imgproc)
              green_outline row 1 out Hout)
    as (blurred & outline_mask & mask & composite
        & Hb & Hc & _ & _ & Hall & _).
  assert (blurred_mask (filters := soft_imgproc) (plane b3 (bits row))
            (sigmaValue green_outline 1)
          = Ok (mkMat 1 9 [36; 36; 36; 36; 0; 0; 0; 0; 0])) as Hb'
    by (vm_compute; reflexivity).
  assert (create_outline_mask (filters := soft_imgproc) (plane b3 (bits row))
            (sigmaValue green_outline 1)
          = Ok (mkMat 1 9 [255; 255; 255; 255; 0; 0; 0; 0; 0])) as Hc'
    by (vm_compute; reflexivity).
  assert (blurred = mkMat 1 9 [36; 36; 36; 36; 0; 0; 0; 0; 0]) as Eb
    by congruence.
  assert (outline_mask = mkMat 1 9 [255; 255; 255; 255; 0; 0; 0; 0; 0]) as Eo
    by congruence.
  exists out, blurred, outline_mask.
  split; [exact Hout|]. split; [exact Hb|]. split; [by rewrite Eb|].
  split; [exact Hc|]. split; [by rewrite Eo | exact Hall].
Defined.

(** [fill_is_all_or_nothing] on the row, with the soft filters: the
    compositing mask holds 255 at position 1 and 36 at position 4, and both
    pixels come back as the same green. *)
Lemma fill_is_all_or_nothing_witness :
  ∃ out mask,
    GetFrame (filters := soft_imgproc) green_outline row 1 = Ok out
    ∧ Mat_wf (bits row)
    ∧ compositing_mask (filters := soft_imgproc) green_outline row 1 = Ok mask
    ∧ data mask = [255; 255; 255; 255; 36; 36; 36; 0; 0]
    ∧ data (bits out) !! 1%nat = Some (mkVec4b 0 255 0 255)
    ∧ data (bits out) !! 4%nat = Some (mkVec4b 0 255 0 255)
    ∧ data (bits out) !! 8%nat = Some transparent.
Proof.
  assert (∃ out, GetFrame (filters := soft_imgproc) green_outline row 1 = Ok out)
    as [out Hout] by (eexists; vm_compute; reflexivity).
  destruct (fill_is_all_or_nothing (filters := soft_imgproc)
              green_outline row 1 out Hout eq_refl)
    as (mask & filled & composite & Hm & _ & _ & _ & Hpx).
  assert (compositing_mask (filters := soft_imgproc) green_outline row 1
          = Ok (mkMat 1 9 [255; 255; 255; 255; 36; 36; 36; 0; 0])) as Hmask
    by (vm_compute; reflexivity).
  assert (mask = mkMat 1 9 [255; 255; 255; 255; 36; 36; 36; 0; 0]) as ->
    by congruence.
  exists out, (mkMat 1 9 [255; 255; 255; 255; 36; 36; 36; 0; 0]).
  split; [exact Hout|]. split; [reflexivity|]. split; [exact Hm|].
  split; [reflexivity|].
  split; [exact (proj2 (Hpx 1%nat 255 eq_refl) clear eq_refl eq_refl)|].
  split; [exact (proj2 (Hpx 4%nat 36 eq_refl) clear eq_refl eq_refl)|].
  exact (proj2 (Hpx 8%nat 0 eq_refl) clear eq_refl eq_refl).
Defined.

(** [roundtrip_same_frames]: from the instance with the fractional red into
    a blank one. *)
Lemma roundtrip_same_frames_witness :
  ∃ loaded,
    SetJsonValue (JsonValue fractional) blank = (Ok (), loaded)
    ∧ GetFrame loaded strip 1 = GetFrame fractional strip 1.
Proof.
  apply (roundtrip_same_frames fractional blank strip 1).
  - reflexivity.
  - split; [reflexivity|]. exists 3%Q. split; [reflexivity|]. intros n; reflexivity.
  - split; [reflexivity|]. exists (2547 # 10)%Q. split; [reflexivity|]. intros n; reflexivity.
  - split; [reflexivity|]. exists 0%Q. split; [reflexivity|]. intros n; reflexivity.
  - split; [reflexivity|]. exists 0%Q. split; [reflexivity|]. intros n; reflexivity.
  - split; [reflexivity|]. exists 255%Q. split; [reflexivity|]. intros n; reflexivity.
Defined.

(** [SetJson_unparsable] on a truncated document. *)
Lemma SetJson_unparsable_witness :
  stringToJson "{" = Throw (InvalidJSON "JSON could not be parsed (or is invalid)")
  ∧ SetJson "{" fractional
    = (Throw (InvalidJSON "JSON is invalid (missing keys or invalid data types)"),
       fractional).
Proof.
  split; [reflexivity|].
  apply (SetJson_unparsable _ (InvalidJSON "JSON could not be parsed (or is invalid)")).
  reflexivity.
Defined.

(** [partial_documents_load] on a document with the red curve only. *)
Lemma partial_documents_load_witness :
  ∃ o', SetJsonValue (objectValue red_only) blank = (Ok (), o')
        ∧ width o' = width blank
        ∧ red o' = 128%Q
        ∧ green o' = green blank
        ∧ blue o' = blue blank
        ∧ alpha o' = alpha blank.
Proof.
  destruct (partial_documents_load red_only blank)
    as (o' & Ho & Hw & Hr & Hg & Hb & Ha);
    [reflexivity | exact I | reflexivity | exact I | exact I | exact I |].
  exists o'. split; [exact Ho|].
  split; [exact Hw|]. split; [exact Hr|]. split; [exact Hg|].
  split; [exact Hb | exact Ha].
Defined.

(** [resolved_values_are_truncated] on the instance with the fractional
    red: 254.7 is used as 254, where the nearest integer is 255. *)
Lemma resolved_values_are_truncated_witness :
  GetValue (red fractional) 1 = (2547 # 10)%Q
  ∧ int_representable (GetValue (red fractional) 1)
  ∧ truncation_of (GetValue (red fractional) 1) (redValue fractional 1)
  ∧ redValue fractional 1 = 254
  ∧ round_half_away (GetValue (red fractional) 1) = 255
  ∧ Scalar_to_Vec4b (solid_color fractional 1) = mkVec4b 0 0 254 255.
Proof.
  split; [reflexivity|]. split; [by vm_compute|].
  destruct (resolved_values_are_truncated (filters := imgproc) fractional 1)
    as (_ & Hr & _);
    [by vm_compute | by vm_compute | by vm_compute | by vm_compute
    | by vm_compute |].
  split; [exact Hr|]. split; [reflexivity|]. split; reflexivity.
Defined.

(** * Further properties of the effect *)

(** ** The format conversion on opaque pixels *)

Lemma all_bytes_elem (b : Z) : 0 <= b < 256 → b ∈ all_bytes.
Proof.
  intros Hb. unfold all_bytes. apply list_elem_of_fmap. exists (Z.to_nat b).
  split; [lia|]. apply elem_of_seq. lia.
Qed.

Lemma for_all_bytes (P : Z → bool) :
  forallb P all_bytes = true → ∀ b, 0 <= b < 256 → P b = true.
Proof.
  intros Hall b Hb. rewrite forallb_forall in Hall.
  apply Hall, list_elem_of_In, all_bytes_elem, Hb.
Qed.

Lemma qPremultiply_lanes (x : Z) :
  qPremultiply x =
    Z.lor (Z.lor (premul_g (Z.land (Z.shiftr x 8) 0xff) (qAlpha x))
                 (premul_rb (Z.land x 0xff00ff) (qAlpha x)))
          (Z.shiftl (qAlpha x) 24).
Proof. reflexivity. Qed.

Lemma premul_g_opaque (g : Z) : 0 <= g < 256 → premul_g g 255 = Z.shiftl g 8.
Proof.
  intros Hg. apply Z.eqb_eq.
  apply (for_all_bytes (λ g, premul_g g 255 =? Z.shiftl g 8)); [|done].
  vm_compute. reflexivity.
Qed.

Lemma premul_rb_opaque (b r : Z) :
  0 <= b < 256 → 0 <= r < 256 →
  premul_rb (Z.lor b (Z.shiftl r 16)) 255 = Z.lor b (Z.shiftl r 16).
Proof.
  intros Hb Hr. apply Z.eqb_eq.
  apply (for_all_bytes
           (λ r, premul_rb (Z.lor b (Z.shiftl r 16)) 255 =? Z.lor b (Z.shiftl r 16)));
    [|done].
  apply (for_all_bytes
           (λ b, forallb (λ r, premul_rb (Z.lor b (Z.shiftl r 16)) 255
                               =? Z.lor b (Z.shiftl r 16)) all_bytes));
    [|done].
  vm_compute. reflexivity.
Qed.

Lemma lor_255_byte (e : Z) : 0 <= e <= 255 → Z.lor 255 e = 255.
Proof.
  intros He. apply Z.eqb_eq.
  apply (for_all_bytes (λ e, Z.lor 255 e =? 255)); [|lia].
  vm_compute. reflexivity.
Qed.

(** Bit by bit: the index [n] is taken lane by lane, [n = m + 8 * k] with
    [0 <= m < 8]. *)
Lemma shiftl_testbit (x k i : Z) :
  0 <= k → Z.testbit (Z.shiftl x k) i = (0 <=? i) && Z.testbit x (i - k).
Proof.
  intros Hk. destruct (Z.leb_spec 0 i); simpl.
  - by apply Z.shiftl_spec.
  - by apply Z.testbit_neg_r.
Qed.

Lemma shiftr_testbit (x k i : Z) :
  0 <= k → Z.testbit (Z.shiftr x k) i = (0 <=? i) && Z.testbit x (i + k).
Proof.
  intros Hk. destruct (Z.leb_spec 0 i); simpl.
  - by apply Z.shiftr_spec.
  - by apply Z.testbit_neg_r.
Qed.

Ltac decide_comparisons :=
  repeat match goal with
  | |- context [?a <=? ?b] =>
      first [ rewrite (proj2 (Z.leb_le a b)) by lia
            | rewrite (proj2 (Z.leb_gt a b)) by lia ]
  | |- context [?a <? ?b] =>
      first [ rewrite (proj2 (Z.ltb_lt a b)) by lia
            | rewrite (proj2 (Z.ltb_ge a b)) by lia ]
  end.

Ltac settle_byte_bits m :=
  repeat match goal with
  | H : 0 <= ?b < 256 |- context [Z.testbit ?b ?i] =>
      lazymatch i with m => fail | _ => idtac end;
      first [ rewrite (byte_high_bits b i H) by lia
            | rewrite (Z.testbit_neg_r b i) by lia
            | replace i with m by lia ]
  end.

Ltac push_testbit :=
  repeat first
    [ rewrite Z.land_spec | rewrite Z.lor_spec
    | rewrite testbit_ones_shift by lia
    | rewrite shiftr_testbit by lia
    | rewrite shiftl_testbit by lia
    | rewrite Z.testbit_0_l ].

Ltac byte_lane k :=
  match goal with
  | Hn : 0 <= ?n |- _ =>
      is_var n;
      let Hm := fresh "Hm" in
      let m := fresh "m" in
      assert (∃ m, n = m + 8 * k ∧ 0 <= m < 8) as (m & -> & Hm)
        by (exists (n - 8 * k); lia);
      push_testbit; decide_comparisons;
      match type of Hm with 0 <= ?mm < 8 => settle_byte_bits mm end;
      simpl; rewrite ?andb_false_r, ?andb_true_r, ?orb_false_r, ?orb_false_l;
      try reflexivity
  end.

Ltac masks_as_ones :=
  change 0xff00ff00 with (Z.lor (Z.shiftl (Z.ones 8) 8) (Z.shiftl (Z.ones 8) 24));
  change 0xff00ff with (Z.lor (Z.shiftl (Z.ones 8) 0) (Z.shiftl (Z.ones 8) 16));
  change 0xff0000 with (Z.shiftl (Z.ones 8) 16);
  change 0xff00 with (Z.shiftl (Z.ones 8) 8);
  change 0xff with (Z.shiftl (Z.ones 8) 0).

Ltac byte_bits :=
  masks_as_ones;
  apply Z.bits_inj'; intros ? ?;
  match goal with
  | Hn : 0 <= ?n |- _ =>
      is_var n;
      destruct (Z_lt_ge_dec n 8); [byte_lane 0|];
      destruct (Z_lt_ge_dec n 16); [byte_lane 1|];
      destruct (Z_lt_ge_dec n 24); [byte_lane 2|];
      destruct (Z_lt_ge_dec n 32); [byte_lane 3|];
      push_testbit; decide_comparisons;
      repeat match goal with
      | H : 0 <= ?b < 256 |- context [Z.testbit ?b ?i] =>
          rewrite (byte_high_bits b i H) by lia
      end;
      simpl; rewrite ?andb_false_r, ?orb_false_r; try reflexivity
  end.

Section Words.
Variables b g r a : Z.
Hypotheses (Hb : 0 <= b < 256) (Hg : 0 <= g < 256) (Hr : 0 <= r < 256)
  (Ha : 0 <= a < 256).

Lemma word_rb :
  Z.land (word_of_bytes (mkVec4b b g r a)) 0xff00ff = Z.lor b (Z.shiftl r 16).
Proof. unfold word_of_bytes. cbn [b0 b1 b2 b3]. byte_bits. Qed.

Lemma word_g :
  Z.land (Z.shiftr (word_of_bytes (mkVec4b b g r a)) 8) 0xff = g.
Proof. unfold word_of_bytes. cbn [b0 b1 b2 b3]. byte_bits. Qed.

Lemma word_alpha : qAlpha (word_of_bytes (mkVec4b b g r a)) = a.
Proof.
  unfold qAlpha, word_of_bytes. cbn [b0 b1 b2 b3].
  change 255 with (Z.shiftl (Z.ones 8) 0). byte_bits.
Qed.

Lemma bytes_of_exchanged_word :
  bytes_of_word
    (ARGB2RGBA (Z.lor (Z.lor (Z.shiftl g 8) (Z.lor b (Z.shiftl r 16)))
                      (Z.shiftl a 24)))
  = mkVec4b r g b a.
Proof.
  unfold bytes_of_word, ARGB2RGBA.
  change 255 with (Z.shiftl (Z.ones 8) 0).
  f_equal; byte_bits.
Qed.
End Words.

(** On an opaque pixel the conversion only exchanges the first and the
    third byte. *)
Lemma convert_opaque (p : Vec4b) :
  bytes_in_range p → b3 p = 255 →
  convert_ARGB32_to_RGBA8888_PM p = mkVec4b (b2 p) (b1 p) (b0 p) 255.
Proof.
  destruct p as [b g r a]. intros (Hb & Hg & Hr & Ha) Hop. simpl in *. subst a.
  unfold convert_ARGB32_to_RGBA8888_PM.
  rewrite qPremultiply_lanes, word_rb, word_g, word_alpha by done.
  rewrite premul_g_opaque, premul_rb_opaque by done.
  by apply bytes_of_exchanged_word.
Qed.

Lemma saturate_cast_uchar_range (v : Z) : 0 <= saturate_cast_uchar v < 256.
Proof. unfold saturate_cast_uchar. lia. Qed.

Lemma saturate_cast_uchar_id (v : Z) : 0 <= v <= 255 → saturate_cast_uchar v = v.
Proof. unfold saturate_cast_uchar. lia. Qed.


(** ** When [GetFrame] returns *)

Section Returns.
Context {filters : Imgproc}.
Context {Keyframe EffectBase : Type}.
Context {curves : KeyframeOps Keyframe} {parent_ops : EffectBaseOps EffectBase}.
Implicit Types (o : Outline Keyframe EffectBase) (frame_image : QImage).





(** X3. Whatever the format of the input, a returned frame is in the
    premultiplied RGBA format, has the extent of the input and one pixel
    per position (so it is a well-formed input again), and the compositing
    mask has that extent too: no step changes the image dimensions. *)
Theorem GetFrame_keeps_extent o frame_image frame_number (out : QImage) :
  GetFrame o frame_image frame_number = Ok out →
  Mat_wf (bits frame_image) →
  format out = Format_RGBA8888_Premultiplied
  ∧ same_shape (bits out) (bits frame_image)
  ∧ Mat_wf (bits out)
  ∧ Mat_empty (bits out) = false
  ∧ ∃ mask, compositing_mask o frame_image frame_number = Ok mask
            ∧ same_shape mask (bits frame_image).
Proof.
  intros Hg Hwf.
  destruct (GetFrame_pixels _ _ _ _ Hg Hwf)
    as (mask & composite & Hm & Hc & -> & Hms & Hcs & Hpx).
  destruct (compositing_mask_shape _ _ _ _ Hm) as [Hne _].
  assert (same_shape (bits (BGRACvMatToQImage composite)) (bits frame_image))
    as Hos.
  { destruct Hcs as (Hr & Hcl & Hl). repeat split; simpl; try done.
    by rewrite length_fmap. }
  split; [done|]. split; [done|]. split.
  { destruct Hos as (Hr & Hcl & Hl). unfold Mat_wf in *. congruence. }
  split; [by rewrite (same_shape_empty _ _ Hos)|]. eauto.
Qed.
End Returns.

(** ** The refined mask (lines 78-87) *)

Lemma saturated_imap (f : nat → Z) (l : list Z) :
  Forall (λ v, 0 <= v <= 255) (imap (λ i _, saturate_cast_uchar (f i)) l).
Proof.
  apply Forall_lookup. intros i v. rewrite list_lookup_imap.
  destruct (l !! i); [|done]. intros [= <-].
  pose proof (saturate_cast_uchar_range (f i)). lia.
Qed.

Lemma Canny_range {filters : Imgproc} (image : Mat uchar) (t1 t2 : Z) :
  Forall (λ v, 0 <= v <= 255) (data (Canny image t1 t2)).
Proof. apply saturated_imap. Qed.

Lemma GaussianBlur_range {filters : Imgproc} (src dst : Mat uchar) ksize s1 s2 :
  Forall (λ v, 0 <= v <= 255) (data src) →
  GaussianBlur src ksize s1 s2 = Ok dst →
  Forall (λ v, 0 <= v <= 255) (data dst).
Proof.
  intros Hsrc. unfold GaussianBlur. intros Hb.
  repeat case_match; try discriminate; injection Hb as <-;
    first [ done | apply saturated_imap ].
Qed.

Section Refinement.
Context {filters : Imgproc}.
Context {Keyframe EffectBase : Type}.
Context {curves : KeyframeOps Keyframe} {parent_ops : EffectBaseOps EffectBase}.
Implicit Types (o : Outline Keyframe EffectBase) (frame_image : QImage).

(** X4. In every run of [GetFrame] that returns a frame, the edge
    refinement of lines 78-87 never takes a pixel out of the outline mask:
    where the thresholded mask is 255 the compositing mask is 255, and where
    it is 0 the compositing mask is the value of the blurred edge mask of
    line 83 at that pixel, an 8-bit number. The masks have the same extent,
    and the returned frame is built through this compositing mask. *)
Theorem edge_refinement_keeps_outline o frame_image frame_number (out : QImage) :
  GetFrame o frame_image frame_number = Ok out →
  ∃ outline_mask blurred_edge_mask mask composite,
    create_outline_mask (plane b3 (bits frame_image)) (sigmaValue o frame_number)
      = Ok outline_mask
    ∧ GaussianBlur (Canny outline_mask 250 255) (0, 0) (8 # 10) (8 # 10)
      = Ok blurred_edge_mask
    ∧ compositing_mask o frame_image frame_number = Ok mask
    ∧ same_shape mask outline_mask
    ∧ (∀ i d, data outline_mask !! i = Some d →
         ∃ e, data blurred_edge_mask !! i = Some e
              ∧ 0 <= e <= 255
              ∧ data mask !! i = Some (if d =? 0 then e else 255))
    ∧ place_layers (bits frame_image) (solid_color o frame_number) mask
        (plane b3 (bits frame_image)) = Ok composite
    ∧ out = BGRACvMatToQImage composite.
Proof.
  intros Hg.
  destruct (GetFrame_locals _ _ _ _ Hg)
    as (blurred & edges & mask & filled & composite
        & Hne & Hb & He & Hor & Hf & Hc & ->).
  destruct (GetFrame_locals_mask _ _ _ _ _ _ Hne Hb He Hor) as (Hcm & Ha & Hm).
  exists (threshold blurred 0 255), edges, mask, composite.
  split; [done|]. split; [done|]. split; [done|].
  split; [by eapply antialias_outline_edge_shape|].
  split; [|split; [unfold place_layers; rewrite Hf; cbn; exact Hc | done]].
  pose proof (GaussianBlur_range _ _ _ _ _ (Canny_range _ _ _) He) as Hrange.
  pose proof (GaussianBlur_shape _ _ _ _ _ He) as Hes.
  apply bitwise_or_shape in Hor as [_ Hdata].
  2:{ apply same_shape_sym.
      eapply same_shape_trans; [done | apply Canny_shape]. }
  intros i d Hd. rewrite Hdata.
  assert (is_Some (data edges !! i)) as [e Hei].
  { apply lookup_lt_is_Some. destruct Hes as (_ & _ & ->).
    simpl. rewrite length_imap. by eapply lookup_lt_Some. }
  exists e. rewrite Forall_lookup in Hrange. pose proof (Hrange i e Hei) as Hr.
  split; [done|]. split; [done|]. rewrite lookup_zip_with, Hd, Hei. simpl. f_equal.
  revert Hd. simpl. rewrite list_lookup_fmap.
  destruct (data blurred !! i) as [v|]; [|done]. intros [= <-].
  unfold threshold_px. destruct (0 <? v); simpl; [by apply lor_255_byte|done].
Qed.
End Refinement.

(** ** The pixels of the returned frame *)

Section ReturnedPixels.
Context {filters : Imgproc}.
Context {Keyframe EffectBase : Type}.
Context {curves : KeyframeOps Keyframe} {parent_ops : EffectBaseOps EffectBase}.
Implicit Types (o : Outline Keyframe EffectBase) (frame_image : QImage).

(** X5. Outside the alpha footprint (source alpha 0) a returned pixel is
    either all zero, where the compositing mask is zero, or the converted
    fill colour, where it is not, the fill being the [int] values of lines
    54-57 saturated to 8 bits: the colour bytes that a fully transparent
    source pixel may carry never reach the output. *)
Theorem outside_footprint_fill_or_clear o frame_image frame_number (out : QImage) :
  GetFrame o frame_image frame_number = Ok out →
  Mat_wf (bits frame_image) →
  ∃ mask,
    compositing_mask o frame_image frame_number = Ok mask
    ∧ ∀ i px, data (bits frame_image) !! i = Some px → b3 px = 0 →
        ∃ m, data mask !! i = Some m
             ∧ data (bits out) !! i =
                 Some (if m =? 0 then transparent
                       else convert_ARGB32_to_RGBA8888_PM
                              (Scalar_to_Vec4b (solid_color o frame_number))).
Proof.
  intros Hg Hwf.
  destruct (GetFrame_pixels _ _ _ _ Hg Hwf)
    as (mask & composite & Hm & Hc & -> & Hms & Hcs & Hpx).
  exists mask. split; [done|]. intros i px Hi Ha.
  assert (is_Some (data mask !! i)) as [m Hmi].
  { apply lookup_lt_is_Some. destruct Hms as (_ & _ & ->).
    by eapply lookup_lt_Some. }
  exists m. split; [done|].
  pose proof (Hpx i px m Hi Hmi) as Hci. rewrite Ha in Hci. simpl in Hci.
  simpl. rewrite list_lookup_fmap, Hci. simpl. by destruct (m =? 0).
Qed.


(** X7. An opaque source pixel (alpha 255) comes back with its first and
    third bytes exchanged and its second byte and alpha unchanged: the
    matrix holds the image's own bytes, and the conversion at the end reads
    them in the byte order of [Format_ARGB32]. *)
Theorem opaque_source_bytes_exchanged o frame_image frame_number (out : QImage) :
  GetFrame o frame_image frame_number = Ok out →
  Mat_wf (bits frame_image) →
  ∀ i px, data (bits frame_image) !! i = Some px →
    bytes_in_range px → b3 px = 255 →
    data (bits out) !! i = Some (mkVec4b (b2 px) (b1 px) (b0 px) 255).
Proof.
  intros Hg Hwf i px Hi Hrange Hop.
  destruct (GetFrame_pixels _ _ _ _ Hg Hwf)
    as (mask & composite & Hm & Hc & -> & Hms & Hcs & Hpx).
  assert (is_Some (data mask !! i)) as [m Hmi].
  { apply lookup_lt_is_Some. destruct Hms as (_ & _ & ->).
    by eapply lookup_lt_Some. }
  pose proof (Hpx i px m Hi Hmi) as Hci. rewrite Hop in Hci. simpl in Hci.
  simpl. rewrite list_lookup_fmap, Hci. simpl. by rewrite convert_opaque.
Qed.

(** X8. The instance that the blank constructor builds (width 3, black,
    opacity 255) has sigma 1 and the fill bytes (0, 0, 0, 255) at every
    frame, and its [GetFrame] returns a frame for every well-formed image
    that is not empty, provided [Keyframe(double)] is the curve that is
    constant. *)
Theorem blank_effect_defaults frame_number :
  (∀ (v : Q) (n : Z), GetValue (Keyframe_of_double v) n = v) →
  sigmaValue (Outline_blank : Outline Keyframe EffectBase) frame_number = 1
  ∧ Scalar_to_Vec4b (solid_color (Outline_blank : Outline Keyframe EffectBase)
                       frame_number) = mkVec4b 0 0 0 255
  ∧ ∀ frame_image, Mat_wf (bits frame_image) →
      Mat_empty (bits frame_image) = false →
      ∃ out, GetFrame (Outline_blank : Outline Keyframe EffectBase)
               frame_image frame_number = Ok out.
Proof.
  intros Hconst.
  assert (sigmaValue (Outline_blank : Outline Keyframe EffectBase) frame_number = 1)
    as Hs by (unfold sigmaValue; simpl; by rewrite Hconst).
  split; [done|]. split.
  - unfold solid_color, redValue, greenValue, blueValue, alphaValue. simpl.
    by rewrite !Hconst.
  - intros frame_image Hwf Hne. apply GetFrame_completes; [done|done| |].
    + rewrite Hs. lia.
    + unfold kernel_fits, INT_MAX. rewrite Hs. lia.
Qed.

(** X17. The effect can be stacked: a frame that [GetFrame] returned is
    accepted by [GetFrame] again, with any instance and frame index whose
    sigma is positive and whose kernel extent 6 * sigma + 1 fits an [int],
    and the second result has the extent of the first input. *)
Theorem GetFrame_twice o o' frame_image frame_number frame_number' (out : QImage) :
  GetFrame o frame_image frame_number = Ok out →
  Mat_wf (bits frame_image) →
  0 < sigmaValue o' frame_number' →
  kernel_fits (sigmaValue o' frame_number') →
  ∃ out', GetFrame o' out frame_number' = Ok out'
          ∧ same_shape (bits out') (bits frame_image).
Proof.
  intros Hg Hwf Hs Hfit.
  destruct (GetFrame_pixels _ _ _ _ Hg Hwf)
    as (mask & composite & Hm & Hc & -> & Hms & Hcs & Hpx).
  destruct (compositing_mask_shape _ _ _ _ Hm) as [Hne _].
  assert (same_shape (bits (BGRACvMatToQImage composite)) (bits frame_image))
    as Hos.
  { destruct Hcs as (Hr & Hcl & Hl). repeat split; simpl; try done.
    by rewrite length_fmap. }
  assert (Mat_wf (bits (BGRACvMatToQImage composite))) as Hwf'.
  { destruct Hos as (Hr & Hcl & Hl). unfold Mat_wf in *. congruence. }
  destruct (GetFrame_completes o' (BGRACvMatToQImage composite) frame_number')
    as [out' Hout'];
    [done | by rewrite (same_shape_empty _ _ Hos) | done | done |].
  exists out'. split; [done|].
  destruct (GetFrame_pixels _ _ _ _ Hout' Hwf')
    as (mask' & composite' & _ & _ & -> & _ & Hcs' & _).
  eapply same_shape_trans; [|exact Hos].
  destruct Hcs' as (Hr & Hcl & Hl). repeat split; simpl; try done.
  by rewrite length_fmap.
Qed.
End ReturnedPixels.

(** ** Loading: what a failed or partial load leaves behind *)

Lemma Value_get_not_a_document (root : Value) (key : string) :
  not_a_document root →
  Value_get root key
    = Throw (Json_LogicError
        "in Json::Value::find(begin, end): requires objectValue or nullValue").
Proof. by destruct root. Qed.

Section LoadingEdges.
Context {reader : JsonReader}.
Context {Keyframe EffectBase : Type}.
Context {curves : KeyframeOps Keyframe} {parent_ops : EffectBaseOps EffectBase}.
Implicit Types (o : Outline Keyframe EffectBase) (k : Keyframe).
Implicit Types (root : Value) (members : gmap string Value).

(** X9. Once the document has parsed, [SetJson] leaves the instance exactly
    as [SetJsonValue] left it, also when that load threw on the way: the
    catch replaces the exception by [InvalidJSON] and rolls nothing back. *)
Theorem SetJson_after_parse value root o :
  stringToJson value = Ok root →
  SetJson value o
    = (match (SetJsonValue root o).1 with
       | Ok _ => Ok ()
       | Throw _ =>
           Throw (InvalidJSON "JSON is invalid (missing keys or invalid data types)")
       end,
       (SetJsonValue root o).2).
Proof.
  intros Hp. unfold SetJson, try_catch_rethrow.
  erewrite bind_Ok; [|by unfold eval; rewrite Hp].
  by destruct (SetJsonValue root o) as [[[]|e] o'].
Qed.

(** X10. The five curves are loaded in the order width, red, green, blue,
    alpha, and the first load that throws ends [SetJsonValue]: when the
    width loads and the red curve's load throws, the exception is that one,
    the width keeps its new curve, red is left in the state its own load
    reached, and green, blue and alpha are not touched even if the document
    holds them. *)
Theorem load_stops_at_first_throw members o vw vr kw kr e :
  (EffectBase_SetJsonValue (objectValue members) (parent o)).1 = Ok () →
  members !! "width" = Some vw → isNull vw = false →
  Keyframe_SetJsonValue vw (width o) = (Ok (), kw) →
  members !! "red" = Some vr → isNull vr = false →
  Keyframe_SetJsonValue vr (red o) = (Throw e, kr) →
  (SetJsonValue (objectValue members) o).1 = Throw e
  ∧ width (SetJsonValue (objectValue members) o).2 = kw
  ∧ red (SetJsonValue (objectValue members) o).2 = kr
  ∧ green (SetJsonValue (objectValue members) o).2 = green o
  ∧ blue (SetJsonValue (objectValue members) o).2 = blue o
  ∧ alpha (SetJsonValue (objectValue members) o).2 = alpha o.
Proof.
  intros Hp Hw Hnw Hlw Hr Hnr Hlr.
  destruct (EffectBase_SetJsonValue (objectValue members) (parent o))
    as [rp p'] eqn:Hpe.
  simpl in Hp. subst rp. unfold SetJsonValue.
  erewrite bind_Ok; [|by unfold on_field; rewrite Hpe].
  erewrite bind_Ok;
    [|rewrite (load_curve_present _ _ _ _ _ vw); [|by simpl; rewrite Hw|done];
      simpl; by rewrite Hlw].
  erewrite bind_Throw;
    [|rewrite (load_curve_present _ _ _ _ _ vr); [|by simpl; rewrite Hr|done];
      simpl; by rewrite Hlr].
  done.
Qed.

(** X11. A document that is neither an object nor null (an array, a
    string, a number, a boolean) never loads, whatever the parent's load
    does with it: when the parent's load throws, [SetJsonValue] ends with
    that exception, and when it returns, the first key looked up (line 166)
    throws [Json::LogicError]. The instance is left with the parent part as
    the parent's load left it and with its five curves unchanged. *)
Theorem non_object_document_is_rejected root o :
  not_a_document root →
  SetJsonValue root o
    = (match (EffectBase_SetJsonValue root (parent o)).1 with
       | Ok _ =>
           Throw (Json_LogicError
             "in Json::Value::find(begin, end): requires objectValue or nullValue")
       | Throw e => Throw e
       end,
       set_parent (EffectBase_SetJsonValue root (parent o)).2 o).
Proof.
  intros Hroot.
  destruct (EffectBase_SetJsonValue root (parent o)) as [[[]|e] p'] eqn:Hpe;
    unfold SetJsonValue; simpl.
  - erewrite bind_Ok; [|by unfold on_field; rewrite Hpe].
    erewrite bind_Throw; [done|].
    unfold load_curve. erewrite bind_Throw; [done|].
    unfold eval. by rewrite Value_get_not_a_document.
  - erewrite bind_Throw; [done|]. unfold on_field. by rewrite Hpe.
Qed.

(** X12. A document without any of the five keys (a null document or an
    object that lacks them) does what the parent's load does and nothing
    more: the outcome is the parent's, and the five curves are as before. *)
Theorem document_without_curves root o :
  Value_get root "width" = Ok nullValue →
  Value_get root "red" = Ok nullValue →
  Value_get root "green" = Ok nullValue →
  Value_get root "blue" = Ok nullValue →
  Value_get root "alpha" = Ok nullValue →
  SetJsonValue root o
    = ((EffectBase_SetJsonValue root (parent o)).1,
       set_parent (EffectBase_SetJsonValue root (parent o)).2 o).
Proof.
  intros Hw Hr Hg Hb Ha.
  destruct (EffectBase_SetJsonValue root (parent o)) as [[[]|e] p'] eqn:Hpe;
    unfold SetJsonValue.
  - erewrite bind_Ok; [|by unfold on_field; rewrite Hpe].
    do 4 (erewrite bind_Ok; [|by apply load_curve_absent]).
    by rewrite load_curve_absent.
  - erewrite bind_Throw; [done|]. unfold on_field. by rewrite Hpe.
Qed.

(** X13. The document of [JsonValue] is the parent's object with six
    members written over it: every other member is the parent's, and "type"
    is the class name of the effect whatever the parent wrote there. *)
Theorem JsonValue_keeps_parent_members o (key : string) :
  key ∉ own_keys →
  Value_get (JsonValue o) key
    = Ok (default nullValue (EffectBase_JsonValue (parent o) !! key))
  ∧ Value_get (JsonValue o) "type" = Ok (stringValue (class_name (info o))).
Proof.
  unfold own_keys. rewrite !not_elem_of_cons.
  intros (? & ? & ? & ? & ? & ? & _). split.
  - unfold JsonValue, Value_get. by rewrite !lookup_insert_ne.
  - unfold JsonValue, Value_get. by simplify_map_eq.
Qed.

End LoadingEdges.

(** ** The further properties at concrete inputs *)



(** [GetFrame_keeps_extent] on the strip. *)
Lemma GetFrame_keeps_extent_witness :
  ∃ out, GetFrame blank strip 1 = Ok out
         ∧ Mat_wf (bits strip)
         ∧ format out = Format_RGBA8888_Premultiplied
         ∧ same_shape (bits out) (bits strip)
         ∧ Mat_wf (bits out).
Proof.
  eexists. split; [vm_compute; reflexivity|]. split; [reflexivity|].
  match goal with |- context [format ?out] =>
    destruct (GetFrame_keeps_extent blank strip 1 out) as (Hf & Hs & Hw & _);
      [vm_compute; reflexivity | reflexivity |] end.
  split; [exact Hf|]. split; [exact Hs | exact Hw].
Defined.

(** [edge_refinement_keeps_outline] on the row, with the soft filters:
    positions 4 to 6 are outside the outline mask and take the blurred edge
    value 36. *)
Lemma edge_refinement_keeps_outline_witness :
  ∃ out outline_mask blurred_edge_mask mask,
    GetFrame (filters := soft_imgproc) green_outline row 1 = Ok out
    ∧ create_outline_mask (filters := soft_imgproc) (plane b3 (bits row))
        (sigmaValue green_outline 1) = Ok outline_mask
    ∧ data outline_mask = [255; 255; 255; 255; 0; 0; 0; 0; 0]
    ∧ GaussianBlur (filters := soft_imgproc)
        (Canny (filters := soft_imgproc) outline_mask 250 255)
        (0, 0) (8 # 10) (8 # 10) = Ok blurred_edge_mask
    ∧ data blurred_edge_mask = [36; 36; 36; 36; 36; 36; 36; 0; 0]
    ∧ compositing_mask (filters := soft_imgproc) green_outline row 1 = Ok mask
    ∧ data mask !! 0%nat = Some 255
    ∧ data mask !! 4%nat = Some 36
    ∧ data mask !! 8%nat = Some 0.
Proof.
  assert (∃ out, GetFrame (filters := soft_imgproc) green_outline row 1 = Ok out)
    as [out Hout] by (eexists; vm_compute; reflexivity).
  destruct (edge_refinement_keeps_outline (filters := soft_imgproc)
              green_outline row 1 out Hout)
    as (outline_mask & edges & mask & composite & Hc & He & Hm & _ & Hpx & _).
  assert (create_outline_mask (filters := soft_imgproc) (plane b3 (bits row))
            (sigmaValue green_outline 1)
          = Ok (mkMat 1 9 [255; 255; 255; 255; 0; 0; 0; 0; 0])) as Hc'
    by (vm_compute; reflexivity).
  assert (outline_mask = mkMat 1 9 [255; 255; 255; 255; 0; 0; 0; 0; 0]) as Eo
    by congruence.
  assert (GaussianBlur (filters := soft_imgproc)
            (Canny (filters := soft_imgproc)
               (mkMat 1 9 [255; 255; 255; 255; 0; 0; 0; 0; 0]) 250 255)
            (0, 0) (8 # 10) (8 # 10)
          = Ok (mkMat 1 9 [36; 36; 36; 36; 36; 36; 36; 0; 0])) as He'
    by (vm_compute; reflexivity).
  assert (edges = mkMat 1 9 [36; 36; 36; 36; 36; 36; 36; 0; 0]) as Ee
    by (rewrite Eo in He; congruence).
  exists out, outline_mask, edges, mask.
  split; [exact Hout|]. split; [exact Hc|]. split; [by rewrite Eo|].
  split; [exact He|]. split; [by rewrite Ee|]. split; [exact Hm|].
  rewrite Eo, Ee in Hpx.
  destruct (Hpx 0%nat 255 eq_refl) as (e0 & He0 & _ & Hm0).
  destruct (Hpx 4%nat 0 eq_refl) as (e4 & He4 & _ & Hm4).
  destruct (Hpx 8%nat 0 eq_refl) as (e8 & He8 & _ & Hm8).
  injection He4 as <-. injection He8 as <-.
  split; [exact Hm0|]. split; [exact Hm4 | exact Hm8].
Defined.

(** [outside_footprint_fill_or_clear] on the strip: its transparent pixel,
    which the blank effect fills with opaque black. *)
Lemma outside_footprint_fill_or_clear_witness :
  ∃ out mask,
    GetFrame blank strip 1 = Ok out
    ∧ Mat_wf (bits strip)
    ∧ compositing_mask blank strip 1 = Ok mask
    ∧ data (bits strip) !! 2%nat = Some clear
    ∧ data mask !! 2%nat = Some 255
    ∧ data (bits out) !! 2%nat = Some (mkVec4b 0 0 0 255).
Proof.
  assert (∃ out, GetFrame blank strip 1 = Ok out) as [out Hout]
    by (eexists; vm_compute; reflexivity).
  destruct (outside_footprint_fill_or_clear blank strip 1 out Hout)
    as (mask & Hm & Hpx); [reflexivity|].
  assert (compositing_mask blank strip 1 = Ok (mkMat 1 3 [255; 255; 255]))
    as Hmask by (vm_compute; reflexivity).
  assert (mask = mkMat 1 3 [255; 255; 255]) as Em by congruence.
  destruct (Hpx 2%nat clear eq_refl eq_refl) as (m & Hmi & Ho).
  rewrite Em in Hmi. injection Hmi as <-.
  exists out, mask. split; [exact Hout|]. split; [reflexivity|].
  split; [exact Hm|]. split; [reflexivity|]. split; [by rewrite Em|].
  exact Ho.
Defined.


(** [opaque_source_bytes_exchanged] on the square. *)
Lemma opaque_source_bytes_exchanged_witness :
  ∃ out, GetFrame blank square 1 = Ok out
         ∧ Mat_wf (bits square)
         ∧ data (bits square) !! 0%nat = Some (mkVec4b 255 0 0 255)
         ∧ data (bits out) !! 0%nat = Some (mkVec4b 0 0 255 255).
Proof.
  assert (∃ out, GetFrame blank square 1 = Ok out) as [out Hout]
    by (eexists; vm_compute; reflexivity).
  exists out. split; [exact Hout|]. split; [reflexivity|].
  split; [reflexivity|].
  apply (opaque_source_bytes_exchanged blank square 1 out Hout eq_refl
           0%nat opaque_red);
    [reflexivity | repeat split; simpl; lia | reflexivity].
Defined.

(** [blank_effect_defaults] with the constant curves. *)
Lemma blank_effect_defaults_witness :
  sigmaValue blank 7 = 1
  ∧ Scalar_to_Vec4b (solid_color blank 7) = mkVec4b 0 0 0 255
  ∧ ∃ out, GetFrame blank strip 7 = Ok out.
Proof.
  destruct (blank_effect_defaults (Keyframe := Q) (EffectBase := base_part) 7)
    as (Hs & Hc & Hg); [intros v n; reflexivity|].
  split; [exact Hs|]. split; [exact Hc|].
  apply Hg; reflexivity.
Defined.

(** [SetJson_after_parse] on the empty object. *)
Lemma SetJson_after_parse_witness :
  stringToJson "{}" = Ok (objectValue ∅)
  ∧ SetJson "{}" fractional = (Ok (), fractional).
Proof.
  split; [reflexivity|].
  rewrite (SetJson_after_parse "{}" (objectValue ∅) fractional); [|reflexivity].
  vm_compute. reflexivity.
Defined.

(** [load_stops_at_first_throw]: the width is loaded, the red point has no
    Y, and the blue curve of the document is never applied. *)
Lemma load_stops_at_first_throw_witness :
  (SetJsonValue (objectValue broken_red) blank).1
    = Throw (Json_LogicError "Value is not convertible to double.")
  ∧ width (SetJsonValue (objectValue broken_red) blank).2 = 9%Q
  ∧ blue (SetJsonValue (objectValue broken_red) blank).2 = blue blank.
Proof.
  destruct (load_stops_at_first_throw broken_red blank
              (Keyframe_JsonValue (9%Q : Q))
              (objectValue {[ "Points" := arrayValue [objectValue ∅] ]})
              9%Q 0%Q (Json_LogicError "Value is not convertible to double."))
    as (He & Hw & _ & _ & Hb & _); try (vm_compute; reflexivity).
  split; [exact He|]. split; [exact Hw | exact Hb].
Defined.

(** [non_object_document_is_rejected] on an array. *)
Lemma non_object_document_is_rejected_witness :
  not_a_document array_document
  ∧ SetJsonValue array_document fractional
    = (Throw (Json_LogicError
         "in Json::Value::find(begin, end): requires objectValue or nullValue"),
       fractional).
Proof.
  split; [exact I|].
  rewrite (non_object_document_is_rejected array_document fractional);
    [|exact I].
  vm_compute. reflexivity.
Defined.

(** [document_without_curves] on the null document. *)
Lemma document_without_curves_witness :
  SetJsonValue nullValue fractional = (Ok (), fractional).
Proof.
  rewrite (document_without_curves nullValue fractional); try reflexivity.
Defined.

(** [JsonValue_keeps_parent_members]: the parent's identifier. *)
Lemma JsonValue_keeps_parent_members_witness :
  "id" ∉ own_keys
  ∧ Value_get (JsonValue fractional) "id" = Ok (stringValue "").
Proof.
  assert ("id" ∉ own_keys) as Hid.
  { unfold own_keys. rewrite !not_elem_of_cons.
    repeat (split; [discriminate|]). apply not_elem_of_nil. }
  split; [exact Hid|].
  destruct (JsonValue_keeps_parent_members fractional "id" Hid) as [Hk _].
  exact Hk.
Defined.

(** [absent_keys_untouched]: green is absent from the document whose load
    throws. *)
Lemma absent_keys_untouched_witness :
  Value_get (objectValue broken_red) "green" = Ok nullValue
  ∧ green (SetJsonValue (objectValue broken_red) blank).2 = green blank.
Proof.
  split; [vm_compute; reflexivity|].
  destruct (absent_keys_untouched (objectValue broken_red) blank)
    as (_ & _ & Hg & _).
  apply Hg. vm_compute. reflexivity.
Defined.

(** [SetJson_throws_InvalidJSON] on a truncated document. *)
Lemma SetJson_throws_InvalidJSON_witness :
  ∃ e, (SetJson "{" blank).1 = Throw e
       ∧ e = InvalidJSON "JSON is invalid (missing keys or invalid data types)".
Proof.
  eexists. split; [vm_compute; reflexivity|].
  apply (SetJson_throws_InvalidJSON "{" blank). vm_compute. reflexivity.
Defined.

(** [GetFrame_twice]: the green outline over the result of the blank one. *)
Lemma GetFrame_twice_witness :
  ∃ out out',
    GetFrame blank strip 1 = Ok out
    ∧ Mat_wf (bits strip)
    ∧ 0 < sigmaValue green_outline 2
    ∧ kernel_fits (sigmaValue green_outline 2)
    ∧ GetFrame green_outline out 2 = Ok out'
    ∧ same_shape (bits out') (bits strip).
Proof.
  assert (∃ out, GetFrame blank strip 1 = Ok out) as [out Hout]
    by (eexists; vm_compute; reflexivity).
  destruct (GetFrame_twice blank green_outline strip 1 2 out Hout)
    as (out' & Hout' & Hs); [reflexivity | reflexivity | by vm_compute |].
  exists out, out'. split; [exact Hout|]. split; [reflexivity|].
  split; [reflexivity|]. split; [by vm_compute|].
  split; [exact Hout' | exact Hs].
Defined.
